(** * Sigma private-coin lifecycle of edge-currency-bitcoin: a shallow embedding

    The development follows the JavaScript sources:
    - [info/sigma/flowTypes.js]   : constants and the [PrivateCoin] record;
    - [info/sigma/coinUtils.js]   : [createPrivateCoin], [getMintCommitmentsForValue];
    - [info/sigma/zcoinEngineExtension.js] : [restore], [mint], [makeMint],
      [getMintMetadataLoop], the approved-coin filter of [makeSpend];
    - [utils/coinUtils.js]        : [sumUtxos] and the CPFP branch of [createTX].

    JavaScript numbers and biggystring decimal strings are modelled as [Z],
    arrays as lists, the [mintsToUpdate] object as a [gmap] from commitments
    to positions of the shared coin array, exceptions as a result type, and
    [while] loops as functions defined by well-founded recursion. *)

From Stdlib Require Import ZArith QArith Lia Sorted Ascii.
From stdpp Require Import base option list strings gmap.
From Equations Require Import Equations.

Local Open Scope string_scope.
Local Open Scope list_scope.
Local Open Scope Z_scope.

(** ** flowTypes.js *)

Definition RESTORE_FILE : string := "restore.json".
Definition SIGMA_COIN : Z := 100000000.

(** The ladder of decimal strings ['5000000', ..., '10000000000']. *)
Definition denominations : list positive :=
  [5000000; 10000000; 50000000; 100000000; 1000000000; 2500000000;
   10000000000]%positive.

Record PrivateCoin := mkPrivateCoin {
  value : Z;
  index : Z;
  commitment : string;
  serialNumber : string;
  groupId : Z;
  isSpend : bool;
  spendTxId : string
}.

(** ** The plugin IO object: the cryptographic oracle behind [io.sigmaMint]
    and the base64 decoder behind [Buffer.from(_, 'base64')]. *)

Record SigmaMintResult := mkSigmaMintResult {
  mint_commitment : string;
  mint_serialNumber : string
}.

Record PluginIo := mkPluginIo {
  sigmaMint : Q -> string -> Z -> SigmaMintResult;
  base64Decode : string -> list Z
}.

(** ** info/sigma/coinUtils.js *)

Definition hexDigit (n : Z) : string :=
  match n with
  | 0 => "0" | 1 => "1" | 2 => "2" | 3 => "3" | 4 => "4" | 5 => "5"
  | 6 => "6" | 7 => "7" | 8 => "8" | 9 => "9" | 10 => "a" | 11 => "b"
  | 12 => "c" | 13 => "d" | 14 => "e" | _ => "f"
  end.

(** [('0' + (byte & 0xff).toString(16)).slice(-2)] *)
Definition hexByte (byte : Z) : string :=
  let b := Z.land byte 255 in
  hexDigit (Z.shiftr b 4) ++ hexDigit (Z.land b 15).

Definition hexFromArray (array : list Z) : string :=
  foldr (fun byte acc => (hexByte byte ++ acc)%string) "" array.

Definition createPrivateCoin
    (value : Z) (privateKey : string) (index : Z) (io : PluginIo) : PrivateCoin :=
  let r := sigmaMint io (inject_Z value / inject_Z SIGMA_COIN)%Q
                     (hexFromArray (base64Decode io privateKey)) index in
  {| value := value;
     index := index;
     commitment := mint_commitment r;
     serialNumber := mint_serialNumber r;
     groupId := 0;
     isSpend := false;
     spendTxId := "" |}.

(** State of the two nested loops of [getMintCommitmentsForValue]: the
    remaining [value], the running [currentIndex] and the [result] array. *)
Record MintLoop := mkMintLoop {
  ml_value : Z;
  ml_currentIndex : Z;
  ml_result : list PrivateCoin
}.

(** One pass through the body of the inner [while]:
    [value = bns.sub(value, denom); currentIndex++; result.push(pCoin)]. *)
Definition mintBody (denom : positive) (privateKey : string) (io : PluginIo)
    (st : MintLoop) : MintLoop :=
  let currentIndex' := ml_currentIndex st + 1 in
  let pCoin := createPrivateCoin (Z.pos denom) privateKey currentIndex' io in
  {| ml_value := ml_value st - Z.pos denom;
     ml_currentIndex := currentIndex';
     ml_result := ml_result st ++ [pCoin] |}.

(** [while (bns.gte(value, denom)) { ... }].  Every denomination is a
    positive amount, so the number of units of [denom] that still fit in the
    remaining value is a decreasing measure. *)
Equations? mintWhile (denom : positive) (privateKey : string) (io : PluginIo)
    (st : MintLoop) : MintLoop by wf (Z.to_nat (ml_value st / Z.pos denom)) lt :=
  mintWhile denom privateKey io st with decide (Z.pos denom <= ml_value st) => {
    | left _ := mintWhile denom privateKey io (mintBody denom privateKey io st);
    | right _ := st }.
Proof.
  simpl.
  replace (ml_value st - Z.pos denom) with (ml_value st + (-1) * Z.pos denom) by lia.
  rewrite Z.div_add by lia.
  assert (0 < ml_value st / Z.pos denom) by (apply Z.div_str_pos; lia).
  lia.
Qed.

(** [for (let i = denominations.length - 1; i >= 0; i--)], given the ladder
    in visiting order (last element first). *)
Fixpoint mintFor (visit : list positive) (privateKey : string) (io : PluginIo)
    (st : MintLoop) : MintLoop :=
  match visit with
  | [] => st
  | denom :: rest => mintFor rest privateKey io (mintWhile denom privateKey io st)
  end.

(** The loops of [getMintCommitmentsForValue] over an arbitrary ladder. *)
Definition mintLoops (ladder : list positive)
    (value : Z) (privateKey : string) (currentIndex : Z) (io : PluginIo)
    : MintLoop :=
  mintFor (rev ladder) privateKey io (mkMintLoop value currentIndex []).

(** The function returns [result] only. *)
Definition getMintCommitmentsFor (ladder : list positive)
    (value : Z) (privateKey : string) (currentIndex : Z) (io : PluginIo)
    : list PrivateCoin :=
  ml_result (mintLoops ladder value privateKey currentIndex io).

Definition getMintCommitmentsForValue
    (value : Z) (privateKey : string) (currentIndex : Z) (io : PluginIo)
    : list PrivateCoin :=
  getMintCommitmentsFor denominations value privateKey currentIndex io.

(** ** JavaScript exceptions

    An [Error] object as far as the sources inspect it: [e.message] and
    [e.type]. *)

Record JsError := mkJsError {
  err_message : string;
  err_type : string
}.

Inductive Result (A : Type) : Type :=
| Ok (a : A)
| Throw (e : JsError).
Arguments Ok {A} a.
Arguments Throw {A} e.

Definition typeError : JsError := mkJsError "TypeError" "".
Definition ioError : JsError := mkJsError "write failed" "".
Definition noSuchFile : JsError := mkJsError "no such file" "".

(** ** Persistent storage (the [Disklet] objects)

    A file holds either the restore marker [{ restored: b }] or the
    serialized coin array.  [unwritable] is the set of file names whose next
    write is rejected; a rejected write leaves the folder as it was. *)

Definition SIGMA_ENCRYPTED_FILE : string := "mint.json".

Inductive FileContent :=
| RestoreJson (restored : bool)
| MintJson (coins : list PrivateCoin).

Record Disklet := mkDisklet {
  files : gmap string FileContent;
  unwritable : gset string
}.

Definition getText (name : string) (d : Disklet) : Result FileContent :=
  match files d !! name with
  | Some c => Ok c
  | None => Throw noSuchFile
  end.

Definition setText (name : string) (c : FileContent) (d : Disklet) : Result Disklet :=
  if decide (name ∈ unwritable d) then Throw ioError
  else Ok {| files := <[name := c]> (files d); unwritable := unwritable d |}.

(** ** zcoinStateExtension: the in-memory coin array, its folder, and the
    chain queries. *)

Record AnonymitySet := mkAnonymitySet {
  blockHash : string;
  serializedCoins : list string
}.

Record CoinGroup := mkCoinGroup {
  denom : Z;
  id : Z;
  anonymitySet : list string
}.

Record MintMetadata := mkMintMetadata {
  pubcoin : string;
  md_groupId : Z;
  height : Z
}.

Record MintRequest := mkMintRequest {
  rq_denom : Z;
  rq_pubcoin : string
}.

Record Chain := mkChain {
  retrieveUsedCoinSerials : list string;
  retrieveLatestCoinIds : list CoinGroup;
  retrieveAnonymitySet : Z -> Z -> AnonymitySet;
  retrieveMintMetadata : list MintRequest -> list MintMetadata
}.

Record ZcoinState := mkZcoinState {
  mintedCoins : list PrivateCoin;
  disklet : Disklet
}.

(** Modelled from the spec: [ZcoinStateExtension.writeMintedCoins], whose body
    is not part of the sources at hand.  The spec describes the coin store as
    an ordered sequence rewritten wholesale on every update (atomic replace on
    write): a successful call replaces the stored array and the in-memory
    one, a failed call changes nothing. *)
Definition writeMintedCoins (coins : list PrivateCoin) (z : ZcoinState)
    : Result ZcoinState :=
  match setText SIGMA_ENCRYPTED_FILE (MintJson coins) (disklet z) with
  | Ok d => Ok {| mintedCoins := coins; disklet := d |}
  | Throw e => Throw e
  end.

(** ** zcoinEngineExtension.restore *)

(** [restoreJsonStr && JSON.parse(restoreJsonStr).restored] under the
    [try]/[catch] that swallows a missing or malformed file. *)
Definition markerRestored (d : Disklet) : bool :=
  match getText RESTORE_FILE d with
  | Ok (RestoreJson true) => true
  | _ => false
  end.

(** [for (let i = 0; i < coinInfo.id; i++)
       coinInfo.anonymitySet = coinInfo.anonymitySet.concat(
         retrieveAnonymitySet(coinInfo.denom, i + 1).serializedCoins)] *)
Definition groupCommitments (chain : Chain) (coinInfo : CoinGroup) : list string :=
  concat ((fun i : nat =>
             serializedCoins
               (retrieveAnonymitySet chain (denom coinInfo) (Z.of_nat i + 1)))
          <$> seq 0 (Z.to_nat (id coinInfo))).

Definition loadGroups (chain : Chain) : list CoinGroup :=
  (fun coinInfo =>
     {| denom := denom coinInfo;
        id := id coinInfo;
        anonymitySet := groupCommitments chain coinInfo |})
  <$> retrieveLatestCoinIds chain.

Definition commitmentCount (groups : list CoinGroup) : Z :=
  foldr (fun coinInfo acc => Z.of_nat (length (anonymitySet coinInfo)) + acc) 0
        groups.

(** State of the scan: the two loop variables, the [mintData] array being
    built, and the candidate indices in the order they were derived (the
    [logger.info('... restore coin ', coin)] lines). *)
Record RestoreScan := mkRestoreScan {
  rs_counter : Z;
  rs_index : Z;
  rs_mintData : list PrivateCoin;
  rs_derived : list Z
}.

(** The inner [for (const coinInfo of latestCoinIds)] with its [break]:
    the first group whose set includes the commitment. *)
Definition matchingGroup (groups : list CoinGroup) (c : string) : option CoinGroup :=
  List.find (fun coinInfo => bool_decide (c ∈ anonymitySet coinInfo)) groups.

(** Body of the scan loop; [counter] and [index] were already incremented by
    the loop test. *)
Definition restoreBody (dataKey : string) (io : PluginIo) (usedSerialNumbers : list string)
    (groups : list CoinGroup) (counter index : Z) (mintData : list PrivateCoin)
    (derived : list Z) : RestoreScan :=
  let coin := createPrivateCoin 100000000 dataKey index io in
  let isSpend := bool_decide (serialNumber coin ∈ usedSerialNumbers) in
  match matchingGroup groups (commitment coin) with
  | Some coinInfo =>
      {| rs_counter := 0;
         rs_index := index;
         rs_mintData :=
           mintData ++ [ {| value := denom coinInfo;
                            index := index;
                            commitment := commitment coin;
                            serialNumber := "";
                            groupId := id coinInfo;
                            isSpend := isSpend;
                            spendTxId := "" |} ];
         rs_derived := derived ++ [index] |}
  | None =>
      {| rs_counter := counter;
         rs_index := index;
         rs_mintData := mintData;
         rs_derived := derived ++ [index] |}
  end.

(** [while (counter++ < 100 && index++ < commitmentCount) { ... }]: the
    post-increments happen at the test, [index++] only when the first
    conjunct held.  The result is the state in which the test failed. *)
Equations? restoreWhile (dataKey : string) (io : PluginIo)
    (usedSerialNumbers : list string) (groups : list CoinGroup) (count : Z)
    (st : RestoreScan) : RestoreScan
    by wf (Z.to_nat (count - rs_index st)) lt :=
  restoreWhile dataKey io usedSerialNumbers groups count st
    with decide (rs_counter st < 100) => {
    | right _ := {| rs_counter := rs_counter st + 1;
                    rs_index := rs_index st;
                    rs_mintData := rs_mintData st;
                    rs_derived := rs_derived st |};
    | left _ with decide (rs_index st < count) => {
      | right _ := {| rs_counter := rs_counter st + 1;
                      rs_index := rs_index st + 1;
                      rs_mintData := rs_mintData st;
                      rs_derived := rs_derived st |};
      | left _ :=
          restoreWhile dataKey io usedSerialNumbers groups count
            (restoreBody dataKey io usedSerialNumbers groups
               (rs_counter st + 1) (rs_index st + 1)
               (rs_mintData st) (rs_derived st)) } }.
Proof. unfold restoreBody. destruct (matchingGroup _ _); simpl; lia. Qed.

Definition restoreScan (dataKey : string) (io : PluginIo) (chain : Chain)
    : RestoreScan :=
  let usedSerialNumbers := retrieveUsedCoinSerials chain in
  let latestCoinIds := loadGroups chain in
  restoreWhile dataKey io usedSerialNumbers latestCoinIds
    (commitmentCount latestCoinIds)
    {| rs_counter := 0; rs_index := -1; rs_mintData := []; rs_derived := [] |}.

(** [restore()]: the returned boolean and the state left behind. *)
Definition restore (dataKey : string) (io : PluginIo) (chain : Chain)
    (z : ZcoinState) : bool * ZcoinState :=
  if markerRestored (disklet z) then (true, z)
  else
    let mintData := rs_mintData (restoreScan dataKey io chain) in
    match writeMintedCoins mintData z with
    | Throw _ => (false, z)
    | Ok z1 =>
        match setText RESTORE_FILE (RestoreJson true) (disklet z1) with
        | Throw _ => (false, z1)
        | Ok d => (true, {| mintedCoins := mintedCoins z1; disklet := d |})
        end
    end.

(** ** zcoinEngineExtension.getMintMetadataLoop *)

(** [mintData.forEach(info => { if (info.commitment) { ... } })]: the requests
    pushed to [mintsToRetrieve] and the object [mintsToUpdate], which maps a
    commitment to the coin object itself, i.e. to its position in the shared
    [mintData] array (a later coin with the same commitment replaces an
    earlier one). *)
Fixpoint collectMints (pos : nat) (mintData : list PrivateCoin)
    (mintsToRetrieve : list MintRequest) (mintsToUpdate : gmap string nat)
    : list MintRequest * gmap string nat :=
  match mintData with
  | [] => (mintsToRetrieve, mintsToUpdate)
  | info :: rest =>
      if decide (commitment info = "") then
        collectMints (S pos) rest mintsToRetrieve mintsToUpdate
      else
        collectMints (S pos) rest
          (mintsToRetrieve ++ [ {| rq_denom := value info;
                                   rq_pubcoin := commitment info |} ])
          (<[commitment info := pos]> mintsToUpdate)
  end.

(** [getBlockHeight() - data.height >= 5 ? data.groupId : -1] *)
Definition confirmedGroupId (blockHeight : Z) (data : MintMetadata) : Z :=
  if decide (blockHeight - height data >= 5) then md_groupId data else -1.

Definition setGroupId (g : Z) (info : PrivateCoin) : PrivateCoin :=
  {| value := value info;
     index := index info;
     commitment := commitment info;
     serialNumber := serialNumber info;
     groupId := g;
     isSpend := isSpend info;
     spendTxId := spendTxId info |}.

(** [retrievedData.forEach(data => { mintsToUpdate[data.pubcoin].groupId = ... })].
    An entry for an unknown commitment dereferences [undefined] and throws;
    the coins updated before it stay updated in memory. *)
Fixpoint applyMetadata (blockHeight : Z) (mintsToUpdate : gmap string nat)
    (retrievedData : list MintMetadata) (mintData : list PrivateCoin)
    : list PrivateCoin * option JsError :=
  match retrievedData with
  | [] => (mintData, None)
  | data :: rest =>
      match mintsToUpdate !! pubcoin data with
      | Some pos =>
          applyMetadata blockHeight mintsToUpdate rest
            (alter (setGroupId (confirmedGroupId blockHeight data)) pos mintData)
      | None => (mintData, Some typeError)
      end
  end.

Definition getMintMetadataLoop (blockHeight : Z) (chain : Chain) (z : ZcoinState)
    : Result unit * ZcoinState :=
  let mintData := mintedCoins z in
  let '(mintsToRetrieve, mintsToUpdate) := collectMints 0 mintData [] ∅ in
  if decide (0 < length mintsToRetrieve)%nat then
    let retrievedData := retrieveMintMetadata chain mintsToRetrieve in
    match applyMetadata blockHeight mintsToUpdate retrievedData mintData with
    | (mintData', Some e) =>
        (Throw e, {| mintedCoins := mintData'; disklet := disklet z |})
    | (mintData', None) =>
        match writeMintedCoins mintData'
                {| mintedCoins := mintData'; disklet := disklet z |} with
        | Ok z' => (Ok tt, z')
        | Throw e => (Throw e, {| mintedCoins := mintData'; disklet := disklet z |})
        end
    end
  else (Ok tt, z).

(** ** zcoinEngineExtension.makeSpend: coin selection *)

(** [if (info.groupId && info.groupId !== -1 && !info.isSpend)]: a [groupId]
    of [0] is falsy. *)
Definition isApproved (info : PrivateCoin) : bool :=
  negb (groupId info =? 0) && negb (groupId info =? -1) && negb (isSpend info).

Definition approvedMints (mintData : list PrivateCoin) : list PrivateCoin :=
  List.filter isApproved mintData.

(** Insertion of a coin into a list ordered by descending value. *)
Fixpoint insertByValue (c : PrivateCoin) (l : list PrivateCoin) : list PrivateCoin :=
  match l with
  | [] => [c]
  | d :: l' => if value d <? value c then c :: d :: l' else d :: insertByValue c l'
  end.

Definition sortByValueDesc (l : list PrivateCoin) : list PrivateCoin :=
  foldr insertByValue [] l.

(** The shortest prefix whose values reach [need], if there is one. *)
Fixpoint coveringPrefix (need : Z) (l : list PrivateCoin) : option (list PrivateCoin) :=
  if need <=? 0 then Some []
  else match l with
       | [] => None
       | c :: l' => cons c <$> coveringPrefix (need - value c) l'
       end.

(** Modelled from the spec: [getMintsToSpend] of [coinOperations.js], a module
    that is imported by the engine extension but is not part of the sources at
    hand.  The spec asks for a deterministic selection that returns a subset
    of the approved coins whose summed value is at least the target amount, or
    an empty result if no such subset exists, and that prefers spending fewer
    coins; the policy chosen here takes the coins largest value first and
    stops as soon as the target is covered. *)
Definition getMintsToSpend (approved : list PrivateCoin) (target : Z)
    : list PrivateCoin :=
  default [] (coveringPrefix target (sortByValueDesc approved)).

Definition insufficientFunds : JsError := mkJsError "InsufficientFundsError" "".

(** The selection step of [makeSpend], up to
    [if (mintsToBeSpend.length === 0) throw new Error('InsufficientFundsError')]. *)
Definition selectCoinsToSpend (mintData : list PrivateCoin) (totalAmountToSend : Z)
    : Result (list PrivateCoin) :=
  let mintsToBeSpend := getMintsToSpend (approvedMints mintData) totalAmountToSend in
  if decide (length mintsToBeSpend = 0%nat) then Throw insufficientFunds
  else Ok mintsToBeSpend.

(** ** utils/coinUtils.js: unspent outputs *)

Record TxOutput := mkTxOutput {
  out_value : Z;
  out_address : string
}.

Record Tx := mkTx {
  txid : string;
  outputs : list TxOutput
}.

Record Utxo := mkUtxo {
  tx : Tx;
  utxo_index : nat;
  utxo_height : Z
}.

(** [tx.outputs[index].value]; dereferencing a missing output throws. *)
Definition utxoValue (u : Utxo) : Result Z :=
  match outputs (tx u) !! utxo_index u with
  | Some o => Ok (out_value o)
  | None => Throw typeError
  end.

(** [utxos.reduce((s, { tx, index }) => s + parseInt(tx.outputs[index].value), 0)] *)
Fixpoint sumUtxosFrom (s : Z) (utxos : list Utxo) : Result Z :=
  match utxos with
  | [] => Ok s
  | u :: rest =>
      match utxoValue u with
      | Ok v => sumUtxosFrom (s + v) rest
      | Throw e => Throw e
      end
  end.

Definition sumUtxos (utxos : list Utxo) : Result Z := sumUtxosFrom 0 utxos.

(** ** utils/coinUtils.js: the CPFP branch of [createTX] *)

Inductive JsNumber :=
| Num (z : Z)
| NaN.

(** [parseInt(x)] for [x] an output object, or [undefined] when the UTXO
    points outside its transaction: [ToString x] is ["[object Object]"] or
    ["undefined"], neither of which starts with a digit, so the result is
    [NaN] whatever the output holds. *)
Definition parseIntOfOutput (x : option TxOutput) : JsNumber := NaN.

Definition jsMinus (a b : JsNumber) : JsNumber :=
  match a, b with
  | Num x, Num y => Num (x - y)
  | _, _ => NaN
  end.

(** [(a, b) => parseInt(b.tx.outputs[b.index]) - parseInt(a.tx.outputs[a.index])] *)
Definition cpfpCompare (a b : Utxo) : JsNumber :=
  jsMinus (parseIntOfOutput (outputs (tx b) !! utxo_index b))
          (parseIntOfOutput (outputs (tx a) !! utxo_index a)).

(** [Array.prototype.sort] with a comparator: a [NaN] result counts as [+0],
    and elements that compare equal keep their relative order. *)
Definition comesAfter (v : JsNumber) : bool :=
  match v with
  | Num z => 0 <? z
  | NaN => false
  end.

Fixpoint sortInsert {A : Type} (cmp : A -> A -> JsNumber) (x : A) (sorted : list A)
    : list A :=
  match sorted with
  | [] => [x]
  | y :: rest =>
      if comesAfter (cmp x y) then y :: sortInsert cmp x rest else x :: y :: rest
  end.

Definition arraySort {A : Type} (cmp : A -> A -> JsNumber) (l : list A) : list A :=
  foldr (sortInsert cmp) [] l.

Record StandardOutput := mkStandardOutput {
  so_address : string;
  so_value : Z
}.

(** What [createTX] hands to [mtx.fund]: the outputs added to the mutable
    transaction, the candidate coins and the [subtractFee] flag. *)
Record FundRequest := mkFundRequest {
  fr_outputs : list StandardOutput;
  fr_coins : list Utxo;
  fr_subtractFee : bool
}.

(** [createTX] from its entry to the call of [mtx.fund].  [CPFP] is the
    parent transaction id (the empty string when absent); [CPFPlimit = 0]
    means no limit.  The test [!mtx.outputs || mtx.outputs.length === 0] is
    made on the transaction object just created, so it always holds. *)
Definition createTX_request (utxos : list Utxo) (outputs0 : list StandardOutput)
    (changeAddress : string) (CPFP : string) (CPFPlimit : nat) (subtractFee : bool)
    : Result FundRequest :=
  let cpfp :=
    if decide (CPFP = "") then Ok (utxos, outputs0, subtractFee)
    else
      let utxos1 := List.filter (fun u => bool_decide (txid (tx u) = CPFP)) utxos in
      let utxos2 := arraySort cpfpCompare utxos1 in
      let utxos3 := if decide (CPFPlimit = 0%nat) then utxos2 else take CPFPlimit utxos2 in
      match sumUtxos utxos3 with
      | Ok value => Ok (utxos3, outputs0 ++ [mkStandardOutput changeAddress value], true)
      | Throw e => Throw e
      end in
  match cpfp with
  | Throw e => Throw e
  | Ok (utxos', outputs', subtractFee') =>
      if decide (length outputs' = 0%nat)
      then Throw (mkJsError "No outputs available." "")
      else Ok {| fr_outputs := outputs'; fr_coins := utxos'; fr_subtractFee := subtractFee' |}
  end.

(** ** zcoinEngineExtension.makeMint *)

Definition OP_SIGMA_MINT : string := "c3".

Record SpendTarget := mkSpendTarget {
  publicAddress : option string;  (* [None]: undefined or empty *)
  nativeAmount : option Z;        (* [None]: undefined or empty *)
  otherParams_script : option string
}.

Record EdgeSpendInfo := mkEdgeSpendInfo {
  spendTargets : list SpendTarget
}.

Record TxOptions := mkTxOptions {
  opt_CPFP : string;                (* the empty string when absent *)
  opt_utxos : option (list Utxo)
}.

Definition noTxOptions : TxOptions := {| opt_CPFP := ""; opt_utxos := None |}.

Inductive MintOutput :=
| ToAddress (address : string) (v : Z)
| ToScript (script : string) (v : Z).

Record BcoinOutput := mkBcoinOutput {
  bo_address : option string;
  bo_script : string;
  bo_value : Z
}.

Record BcoinTx := mkBcoinTx {
  btx_outputs : list BcoinOutput;
  btx_fee : Z
}.

(** The fields of the returned [EdgeTransaction] that the mint path fills
    from its own computation. *)
Record EdgeTransaction := mkEdgeTransaction {
  otherParams_edgeSpendInfo : EdgeSpendInfo;
  otherParams_isSpend : bool;
  otherParams_mintsForSave : list PrivateCoin;
  otherParams_txOutputs : list BcoinOutput;
  networkFee : Z;
  etx_txid : string;
  signedTx : string
}.

(** The collaborators of the engine extension: wallet keys, the transparent
    UTXO set, the key manager's transaction builder and the currency engine's
    sign, broadcast and save steps.  [newInsufficientFundsError] is the object
    built by [new InsufficientFundsError()] of edge-core-js. *)
Record Engine := mkEngine {
  eng_io : PluginIo;
  eng_dataKey : string;
  eng_getUTXOs : list Utxo;
  eng_getLastPrivateCoinIndex : Z;
  eng_getBlockHeight : Z;
  eng_newInsufficientFundsError : JsError;
  eng_createTX : list MintOutput -> list Utxo -> TxOptions -> Result BcoinTx;
  eng_signTx : EdgeTransaction -> Result EdgeTransaction;
  eng_broadcastTx : EdgeTransaction -> Result EdgeTransaction;
  eng_saveTx : EdgeTransaction -> Result unit
}.

(** First [mints.forEach]: one output per coin of the current target. *)
Definition targetOutputs (t : SpendTarget) (mints : list PrivateCoin) : list MintOutput :=
  match publicAddress t, nativeAmount t, otherParams_script t with
  | Some address, Some _, _ => (fun coin => ToAddress address (value coin)) <$> mints
  | _, _, Some script => (fun coin => ToScript script (value coin)) <$> mints
  | _, _, None => []
  end.

(** Second [mints.forEach]:
    [coin.groupId = -1; coin.isSpend = false; coin.spendTxId = '']. *)
Definition markPending (coin : PrivateCoin) : PrivateCoin :=
  {| value := value coin;
     index := index coin;
     commitment := commitment coin;
     serialNumber := serialNumber coin;
     groupId := -1;
     isSpend := false;
     spendTxId := "" |}.

(** One pass of [for (const spendTarget of spendTargets)]: [outputs]
    accumulates over the targets, [mints] is reassigned for each of them, and
    every target starts from the same [currentMaxIndex]. *)
Definition mintTarget (eng : Engine) (currentMaxIndex : Z)
    (acc : list MintOutput * list PrivateCoin) (spendTarget : SpendTarget)
    : list MintOutput * list PrivateCoin :=
  let balance := default 0 (nativeAmount spendTarget) in
  let mints :=
    getMintCommitmentsForValue balance (eng_dataKey eng) currentMaxIndex
      (eng_io eng) in
  (acc.1 ++ targetOutputs spendTarget mints, markPending <$> mints).

(** The whole loop, from [outputs = []] and [mints = []]. *)
Definition mintTargets (eng : Engine) (currentMaxIndex : Z)
    (targets : list SpendTarget) : list MintOutput * list PrivateCoin :=
  foldl (mintTarget eng currentMaxIndex) ([], []) targets.

(** One pass of [for (let i = 0; i < outputs.length; i++)]: both
    [bcoinTx.outputs[i]] and [mints[i]] are dereferenced. *)
Definition patchOutput (mints : list PrivateCoin) (outs : list BcoinOutput) (i : nat)
    : Result (list BcoinOutput) :=
  match outs !! i, mints !! i with
  | Some o, Some privateCoin =>
      Ok (<[i := {| bo_address := None;
                    bo_script := OP_SIGMA_MINT ++ commitment privateCoin;
                    bo_value := bo_value o |}]> outs)
  | _, _ => Throw typeError
  end.

Fixpoint patchOutputs (mints : list PrivateCoin) (outs : list BcoinOutput)
    (positions : list nat) : Result (list BcoinOutput) :=
  match positions with
  | [] => Ok outs
  | i :: rest =>
      match patchOutput mints outs i with
      | Ok outs' => patchOutputs mints outs' rest
      | Throw e => Throw e
      end
  end.

(** [catch (e) { if (e.type === 'FundingError') throw new Error('InsufficientFundsError'); throw e }] *)
Definition rethrowFunding {A : Type} (r : Result A) : Result A :=
  match r with
  | Ok a => Ok a
  | Throw e =>
      if decide (err_type e = "FundingError") then Throw insufficientFunds
      else Throw e
  end.

Definition makeMint (eng : Engine) (edgeSpendInfo : EdgeSpendInfo)
    (txOptions : TxOptions) : Result EdgeTransaction :=
  let targets := spendTargets edgeSpendInfo in
  if decide (opt_CPFP txOptions = "" ∧ (length targets < 1)%nat) then
    Throw (mkJsError "Need to provide Spend Targets" "")
  else
    let totalAmountToSend :=
      foldl (fun sum t => sum + default 0 (nativeAmount t)) 0 targets in
    let utxos := default (eng_getUTXOs eng) (opt_utxos txOptions) in
    match sumUtxos utxos with
    | Throw e => Throw e
    | Ok available =>
        if decide (totalAmountToSend > available) then
          Throw (eng_newInsufficientFundsError eng)
        else
          rethrowFunding
            (let currentMaxIndex := eng_getLastPrivateCoinIndex eng in
             let '(outputs, mints) := mintTargets eng currentMaxIndex targets in
             match eng_createTX eng outputs utxos txOptions with
             | Throw e => Throw e
             | Ok bcoinTx =>
                 match patchOutputs mints (btx_outputs bcoinTx)
                         (seq 0 (length outputs)) with
                 | Throw e => Throw e
                 | Ok outs =>
                     Ok {| otherParams_edgeSpendInfo := edgeSpendInfo;
                           otherParams_isSpend := false;
                           otherParams_mintsForSave := mints;
                           otherParams_txOutputs := outs;
                           networkFee := btx_fee bcoinTx;
                           etx_txid := "";
                           signedTx := "" |}
                 end
             end)
    end.

(** ** zcoinEngineExtension.mint *)

(** [denominations[0]] *)
Definition denominations_0 : Z :=
  match denominations with
  | d :: _ => Z.pos d
  | [] => 0
  end.

(** [edgeSpendInfo.spendTargets[0].nativeAmount || '0'] *)
Definition firstAmount (info : EdgeSpendInfo) : Z :=
  match spendTargets info with
  | t :: _ => default 0 (nativeAmount t)
  | [] => 0
  end.

(** [edgeSpendInfo.spendTargets[0].nativeAmount = a] *)
Definition setFirstAmount (a : Z) (info : EdgeSpendInfo) : EdgeSpendInfo :=
  match spendTargets info with
  | t :: rest =>
      {| spendTargets :=
           {| publicAddress := publicAddress t;
              nativeAmount := Some a;
              otherParams_script := otherParams_script t |} :: rest |}
  | [] => info
  end.

(** What one run of [mint] does that can be seen from outside: its calls of
    [makeMint] (with the first target's amount at the time of the call) and
    its log lines. *)
Inductive MintEvent :=
| MakeMintCalled (amount : Z)
| LoggedMintError (e : JsError)
| LoggedMintTx (t : EdgeTransaction)
| LoggedWentWrong (e : JsError).

(** [while (tryAgain) { ... }].  The loop either leaves with the built
    transaction, or returns from [mint] ([None]), or throws out of the
    [catch] block when there is no first spend target to read. *)
Equations? mintTry (eng : Engine) (info : EdgeSpendInfo) (log : list MintEvent)
    : Result (option EdgeTransaction * list MintEvent)
    by wf (Z.to_nat (firstAmount info / denominations_0)) lt :=
  mintTry eng info log with makeMint eng info noTxOptions => {
    | Ok t := Ok (Some t, log ++ [MakeMintCalled (firstAmount info)]);
    | Throw e with decide (err_message e = "InsufficientFundsError") => {
      | right _ :=
          Ok (None, log ++ [MakeMintCalled (firstAmount info); LoggedMintError e]);
      | left _ with decide (spendTargets info = []) => {
        | left _ := Throw typeError;
        | right _ with decide (firstAmount info > denominations_0) => {
          | right _ :=
              Ok (None, log ++ [MakeMintCalled (firstAmount info); LoggedMintError e]);
          | left _ :=
              mintTry eng
                (setFirstAmount (firstAmount info - denominations_0) info)
                (log ++ [MakeMintCalled (firstAmount info); LoggedMintError e]) } } } }.
Proof.
  clear mintTry.
  unfold firstAmount, setFirstAmount in *.
  destruct (spendTargets info) as [|t rest]; [congruence|]. simpl.
  change denominations_0 with 5000000 in *.
  set (a := default 0 (nativeAmount t)) in *.
  replace (a - 5000000) with (a + (-1) * 5000000) by lia.
  rewrite Z.div_add by lia.
  assert (0 < a / 5000000) by (apply Z.div_str_pos; lia).
  lia.
Qed.

(** [mint(edgeSpendInfo)]: [Ok log] when the promise resolves, [Throw e] when
    it rejects. *)
Definition mint (eng : Engine) (edgeSpendInfo : EdgeSpendInfo)
    : Result (list MintEvent) :=
  match mintTry eng edgeSpendInfo [] with
  | Throw e => Throw e
  | Ok (None, log) => Ok log
  | Ok (Some t, log) =>
      match eng_signTx eng t with
      | Throw e => Ok (log ++ [LoggedWentWrong e])
      | Ok t1 =>
          match eng_broadcastTx eng t1 with
          | Throw e => Ok (log ++ [LoggedWentWrong e])
          | Ok t2 =>
              match eng_saveTx eng t2 with
              | Throw e => Ok (log ++ [LoggedWentWrong e])
              | Ok _ => Ok (log ++ [LoggedMintTx t2])
              end
          end
      end
  end.

(** ** A synthetic oracle used for concrete runs. *)

Definition decimalDigit (n : Z) : string := hexDigit (n mod 10).

Definition fixtureMint (denomination : Q) (privateKey : string) (index : Z)
    : SigmaMintResult :=
  {| mint_commitment := "c" ++ decimalDigit (index / 10) ++ decimalDigit index;
     mint_serialNumber := "s" ++ decimalDigit (index / 10) ++ decimalDigit index |}.

Definition fixtureIo : PluginIo :=
  {| sigmaMint := fixtureMint; base64Decode := fun _ => [222; 173; 190; 239] |}.

Definition coinValues (l : list PrivateCoin) : list Z := value <$> l.
Definition coinIndices (l : list PrivateCoin) : list Z := index <$> l.
Definition sumZ (l : list Z) : Z := foldr Z.add 0 l.

(** ** Closed forms used to state what the mint loops compute *)

(** [n] coins of denomination [denom] with the indices that follow
    [currentIndex]. *)
Definition newCoins (denom : positive) (privateKey : string) (io : PluginIo)
    (currentIndex : Z) (n : nat) : list PrivateCoin :=
  (fun i : nat =>
     createPrivateCoin (Z.pos denom) privateKey (currentIndex + 1 + Z.of_nat i) io)
  <$> seq 0 n.

(** How many units of [denom] fit in [v] (none when [v] is negative). *)
Definition unitsOf (denom : positive) (v : Z) : nat := Z.to_nat (v / Z.pos denom).

(** Greedy decomposition in visiting order: as many units of each
    denomination as fit in what is left. *)
Fixpoint greedyValues (visit : list positive) (v : Z) : list Z :=
  match visit with
  | [] => []
  | d :: rest =>
      replicate (unitsOf d v) (Z.pos d)
      ++ greedyValues rest (v - Z.of_nat (unitsOf d v) * Z.pos d)
  end.

Fixpoint greedyRemainder (visit : list positive) (v : Z) : Z :=
  match visit with
  | [] => v
  | d :: rest => greedyRemainder rest (v - Z.of_nat (unitsOf d v) * Z.pos d)
  end.

Fixpoint greedyCoins (visit : list positive) (privateKey : string) (io : PluginIo)
    (v currentIndex : Z) : list PrivateCoin :=
  match visit with
  | [] => []
  | d :: rest =>
      newCoins d privateKey io currentIndex (unitsOf d v)
      ++ greedyCoins rest privateKey io
           (v - Z.of_nat (unitsOf d v) * Z.pos d)
           (currentIndex + Z.of_nat (unitsOf d v))
  end.

(** ** Fixtures and auxiliary notions used in the statements *)

(** A chain that has published one group of one commitment, the one the
    fixture oracle derives for index 0; the serial of that coin is used. *)
Definition chainOneCoin : Chain :=
  {| retrieveUsedCoinSerials := ["s00"];
     retrieveLatestCoinIds := [ {| denom := 50000000; id := 1; anonymitySet := [] |} ];
     retrieveAnonymitySet := fun _ _ => {| blockHash := "b"; serializedCoins := ["c00"] |};
     retrieveMintMetadata := fun _ => [] |}.

(** A chain whose only group holds 150 commitments of other wallets. *)
Definition chainForeignCoins : Chain :=
  {| retrieveUsedCoinSerials := [];
     retrieveLatestCoinIds := [ {| denom := 50000000; id := 1; anonymitySet := [] |} ];
     retrieveAnonymitySet :=
       fun _ _ => {| blockHash := "b"; serializedCoins := replicate 150 "foreign" |};
     retrieveMintMetadata := fun _ => [] |}.

(** What holds of the scan state each time the loop test is reached. *)
Definition scanInvariant (count : Z) (st : RestoreScan) : Prop :=
  -1 <= rs_index st <= count
  /\ 0 <= rs_counter st <= 100
  /\ rs_derived st = seqZ 0 (rs_index st + 1).

(** The two ways the loop test can fail. *)
Definition scanExit (count : Z) (final : RestoreScan) : Prop :=
  (rs_counter final = 101
   /\ rs_index final <= count
   /\ rs_derived final = seqZ 0 (rs_index final + 1))
  \/ (rs_counter final <= 100
      /\ rs_index final = count + 1
      /\ rs_derived final = seqZ 0 (count + 1)).

(** The shape of a record pushed by the scan: the candidate derived for its
    index belongs to the set of some group, whose denomination and id it
    takes; serial number and spend transaction id are left empty. *)
Definition recordedBy (dataKey : string) (io : PluginIo) (used : list string)
    (groups : list CoinGroup) (c : PrivateCoin) : Prop :=
  exists coinInfo,
    coinInfo ∈ groups
    /\ commitment (createPrivateCoin 100000000 dataKey (index c) io)
         ∈ anonymitySet coinInfo
    /\ c = {| value := denom coinInfo;
              index := index c;
              commitment :=
                commitment (createPrivateCoin 100000000 dataKey (index c) io);
              serialNumber := "";
              groupId := id coinInfo;
              isSpend :=
                bool_decide
                  (serialNumber (createPrivateCoin 100000000 dataKey (index c) io)
                     ∈ used);
              spendTxId := "" |}.

Definition emptyDisklet : Disklet := {| files := ∅; unwritable := ∅ |}.
Definition freshState : ZcoinState := {| mintedCoins := []; disklet := emptyDisklet |}.

(** A folder that rejects the write of the restore marker. *)
Definition markerRejectingState : ZcoinState :=
  {| mintedCoins := [];
     disklet := {| files := ∅; unwritable := {[ RESTORE_FILE ]} |} |}.


Definition pendingCoin : PrivateCoin :=
  {| value := 50000000; index := 1; commitment := "c01"; serialNumber := "s01";
     groupId := -1; isSpend := false; spendTxId := "" |}.

(** A chain reporting the coin ["c01"] in group 3 at height 100. *)
Definition chainConfirming : Chain :=
  {| retrieveUsedCoinSerials := [];
     retrieveLatestCoinIds := [];
     retrieveAnonymitySet := fun _ _ => {| blockHash := "b"; serializedCoins := [] |};
     retrieveMintMetadata :=
       fun _ => [ {| pubcoin := "c01"; md_groupId := 3; height := 100 |} ] |}.

Definition pendingState : ZcoinState :=
  {| mintedCoins := [pendingCoin]; disklet := emptyDisklet |}.

Definition sumPositive (l : list PrivateCoin) : Z :=
  foldr (fun c acc => Z.max 0 (value c) + acc) 0 l.

Fixpoint descending (l : list PrivateCoin) : Prop :=
  match l with
  | [] => True
  | c :: rest => Forall (fun d => value d <= value c) rest /\ descending rest
  end.

Definition approvedCoin (v idx : Z) : PrivateCoin :=
  {| value := v; index := idx; commitment := "c"; serialNumber := "";
     groupId := 2; isSpend := false; spendTxId := "" |}.

Definition isPending (c : PrivateCoin) : Prop :=
  groupId c = -1 /\ isSpend c = false /\ spendTxId c = "".

Definition fundedUtxo : Utxo :=
  {| tx := {| txid := "funding";
              outputs := [ {| out_value := 200000000; out_address := "mine" |} ] |};
     utxo_index := 0;
     utxo_height := 90 |}.

Definition plainOutput (o : MintOutput) : BcoinOutput :=
  match o with
  | ToAddress a v => {| bo_address := Some a; bo_script := ""; bo_value := v |}
  | ToScript s v => {| bo_address := None; bo_script := s; bo_value := v |}
  end.

(** An engine whose wallet holds one output of 2 coins and whose
    collaborators all succeed. *)
Definition fixtureEngine : Engine :=
  {| eng_io := fixtureIo;
     eng_dataKey := "k";
     eng_getUTXOs := [fundedUtxo];
     eng_getLastPrivateCoinIndex := 7;
     eng_getBlockHeight := 100;
     eng_newInsufficientFundsError := mkJsError "Insufficient funds" "";
     eng_createTX :=
       fun outs _ _ => Ok {| btx_outputs := plainOutput <$> outs; btx_fee := 1000 |};
     eng_signTx := Ok;
     eng_broadcastTx := Ok;
     eng_saveTx := fun _ => Ok tt |}.

(** The same wallet when the transaction builder cannot fund anything. *)
Definition starvedEngine : Engine :=
  {| eng_io := fixtureIo;
     eng_dataKey := "k";
     eng_getUTXOs := [fundedUtxo];
     eng_getLastPrivateCoinIndex := 7;
     eng_getBlockHeight := 100;
     eng_newInsufficientFundsError := mkJsError "Insufficient funds" "";
     eng_createTX := fun _ _ _ => Throw (mkJsError "Not enough funds" "FundingError");
     eng_signTx := Ok;
     eng_broadcastTx := Ok;
     eng_saveTx := fun _ => Ok tt |}.

(** The same wallet when the transaction builder fails for another reason. *)
Definition brokenEngine : Engine :=
  {| eng_io := fixtureIo;
     eng_dataKey := "k";
     eng_getUTXOs := [fundedUtxo];
     eng_getLastPrivateCoinIndex := 7;
     eng_getBlockHeight := 100;
     eng_newInsufficientFundsError := mkJsError "Insufficient funds" "";
     eng_createTX := fun _ _ _ => Throw (mkJsError "TX failed context check." "");
     eng_signTx := Ok;
     eng_broadcastTx := Ok;
     eng_saveTx := fun _ => Ok tt |}.

Definition mintRequest (amount : Z) : EdgeSpendInfo :=
  {| spendTargets :=
       [ {| publicAddress := Some "change";
            nativeAmount := Some amount;
            otherParams_script := None |} ] |}.

Definition mintedPair : list PrivateCoin :=
  [ {| value := 100000000; index := 8; commitment := "c08"; serialNumber := "s08";
       groupId := -1; isSpend := false; spendTxId := "" |};
    {| value := 50000000; index := 9; commitment := "c09"; serialNumber := "s09";
       groupId := -1; isSpend := false; spendTxId := "" |} ].

Definition mintedTx : EdgeTransaction :=
  {| otherParams_edgeSpendInfo := mintRequest 150000000;
     otherParams_isSpend := false;
     otherParams_mintsForSave := mintedPair;
     otherParams_txOutputs :=
       [ {| bo_address := None; bo_script := "c3c08"; bo_value := 100000000 |};
         {| bo_address := None; bo_script := "c3c09"; bo_value := 50000000 |} ];
     networkFee := 1000;
     etx_txid := "";
     signedTx := "" |}.

(** One turn of the loop, with the recursive call left folded. *)
Definition retryStep (eng : Engine) (info : EdgeSpendInfo) (log : list MintEvent)
    : Result (option EdgeTransaction * list MintEvent) :=
  match makeMint eng info noTxOptions with
  | Ok t => Ok (Some t, log ++ [MakeMintCalled (firstAmount info)])
  | Throw e =>
      let log' := log ++ [MakeMintCalled (firstAmount info); LoggedMintError e] in
      if decide (err_message e = "InsufficientFundsError") then
        if decide (spendTargets info = []) then Throw typeError
        else if decide (firstAmount info > denominations_0) then
          mintTry eng (setFirstAmount (firstAmount info - denominations_0) info) log'
        else Ok (None, log')
      else Ok (None, log')
  end.

Definition prependLog {A : Type} (pre : list MintEvent)
    (r : Result (A * list MintEvent)) : Result (A * list MintEvent) :=
  match r with
  | Ok (a, log) => Ok (a, pre ++ log)
  | Throw e => Throw e
  end.

Definition prependEvents (pre : list MintEvent) (r : Result (list MintEvent))
    : Result (list MintEvent) :=
  match r with
  | Ok log => Ok (pre ++ log)
  | Throw e => Throw e
  end.

Definition parentTx : Tx :=
  {| txid := "parent";
     outputs := [ {| out_value := 1000; out_address := "a" |};
                  {| out_value := 5000; out_address := "b" |} ] |}.

Definition smallCandidate : Utxo :=
  {| tx := parentTx; utxo_index := 0; utxo_height := 90 |}.

Definition largeCandidate : Utxo :=
  {| tx := parentTx; utxo_index := 1; utxo_height := 90 |}.

(** ** utils/coinUtils.js: [createTX] as a whole

    The steps after the request is prepared belong to bcoin: adding the
    outputs, turning the candidates into coins and [mtx.fund], taken together
    as [bcoin_fund], and [mtx.verifyInputs]. *)

Definition RBF_SEQUENCE_NUM : Z := 4294967295 - 2.

Record MtxInput := mkMtxInput {
  in_prevout : string * nat;
  in_sequence : Z
}.

Record Mtx := mkMtx {
  mtx_outputs : list StandardOutput;
  mtx_inputs : list MtxInput
}.

Record Bcoin := mkBcoin {
  bcoin_fund : FundRequest -> Z -> Z -> Result Mtx;   (* request, rate, height *)
  bcoin_verifyInputs : Mtx -> Z -> bool
}.

(** [for (const input of mtx.inputs) input.sequence = RBF_SEQUENCE_NUM] *)
Definition markReplaceable (mtx : Mtx) : Mtx :=
  {| mtx_outputs := mtx_outputs mtx;
     mtx_inputs :=
       (fun input => {| in_prevout := in_prevout input;
                        in_sequence := RBF_SEQUENCE_NUM |})
       <$> mtx_inputs mtx |}.

Definition createTX (lib : Bcoin) (utxos : list Utxo) (outputs0 : list StandardOutput)
    (changeAddress : string) (rate height : Z)
    (CPFP : string) (CPFPlimit : nat) (subtractFee setRBF : bool) : Result Mtx :=
  match createTX_request utxos outputs0 changeAddress CPFP CPFPlimit subtractFee with
  | Throw e => Throw e
  | Ok request =>
      match bcoin_fund lib request rate height with
      | Throw e => Throw e
      | Ok funded =>
          let mtx := if setRBF then markReplaceable funded else funded in
          if decide (height <> -1) then
            if bcoin_verifyInputs lib mtx height then Ok mtx
            else Throw (mkJsError "TX failed context check." "")
          else Ok mtx
      end
  end.

(** ** Notions used to state the further properties *)

Definition hexValue (c : Ascii.ascii) : Z :=
  match c with
  | "0" => 0 | "1" => 1 | "2" => 2 | "3" => 3 | "4" => 4 | "5" => 5
  | "6" => 6 | "7" => 7 | "8" => 8 | "9" => 9 | "a" => 10 | "b" => 11
  | "c" => 12 | "d" => 13 | "e" => 14 | "f" => 15 | _ => 0
  end%char.

(** Reads a string two hexadecimal digits at a time. *)
Fixpoint bytesFromHex (s : string) : list Z :=
  match s with
  | String hi (String lo rest) => (16 * hexValue hi + hexValue lo) :: bytesFromHex rest
  | _ => []
  end.

(** The output an unspent output points at, if its transaction has it. *)
Definition utxoOutput (u : Utxo) : option TxOutput :=
  outputs (tx u) !! utxo_index u.

Definition utxoAmount (u : Utxo) : Z :=
  default 0 (out_value <$> utxoOutput u).

(** The candidates [createTX] keeps in CPFP mode. *)
Definition cpfpCandidates (utxos : list Utxo) (CPFP : string) (CPFPlimit : nat)
    : list Utxo :=
  let ofParent := List.filter (fun u => bool_decide (txid (tx u) = CPFP)) utxos in
  if decide (CPFPlimit = 0%nat) then ofParent else take CPFPlimit ofParent.

(** A funding step that spends every candidate and leaves the sequence
    numbers final, and a context check that accepts everything. *)
Definition fixtureBcoin : Bcoin :=
  {| bcoin_fund :=
       fun request _ _ =>
         Ok {| mtx_outputs := fr_outputs request;
               mtx_inputs :=
                 (fun u => {| in_prevout := (txid (tx u), utxo_index u);
                              in_sequence := 4294967295 |})
                 <$> fr_coins request |};
     bcoin_verifyInputs := fun _ _ => true |}.

(** The record the scan pushes for the index [idx], if the commitment derived
    for it is published in some group. *)
Definition restoredRecord (dataKey : string) (io : PluginIo) (used : list string)
    (groups : list CoinGroup) (idx : Z) : option PrivateCoin :=
  let coin := createPrivateCoin 100000000 dataKey idx io in
  match matchingGroup groups (commitment coin) with
  | Some coinInfo =>
      Some {| value := denom coinInfo;
              index := idx;
              commitment := commitment coin;
              serialNumber := "";
              groupId := id coinInfo;
              isSpend := bool_decide (serialNumber coin ∈ used);
              spendTxId := "" |}
  | None => None
  end.

(** No group publishes the commitment derived for [idx]. *)
Definition isMiss (dataKey : string) (io : PluginIo) (groups : list CoinGroup)
    (idx : Z) : Prop :=
  matchingGroup groups (commitment (createPrivateCoin 100000000 dataKey idx io))
  = None.

(** The last [rs_counter] indices derived so far were all misses. *)
Definition scanWindow (dataKey : string) (io : PluginIo) (groups : list CoinGroup)
    (st : RestoreScan) : Prop :=
  0 <= rs_counter st <= rs_index st + 1
  /\ forall j, rs_index st - rs_counter st < j <= rs_index st ->
               isMiss dataKey io groups j.

(** A chain whose only group holds the commitments of indices 0 and 2 among
    50 foreign ones. *)
Definition chainTwoCoins : Chain :=
  {| retrieveUsedCoinSerials := ["s02"];
     retrieveLatestCoinIds := [ {| denom := 50000000; id := 1; anonymitySet := [] |} ];
     retrieveAnonymitySet :=
       fun _ _ => {| blockHash := "b";
                     serializedCoins := "c02" :: "c00" :: replicate 50 "foreign" |};
     retrieveMintMetadata := fun _ => [] |}.

(** The position, counted from [pos], of the last coin of the array that
    carries the non-empty commitment [k]. *)
Fixpoint lastPosition (k : string) (mintData : list PrivateCoin) (pos : nat)
    : option nat :=
  match mintData with
  | [] => None
  | c :: rest =>
      match lastPosition k rest (S pos) with
      | Some p => Some p
      | None => if decide (commitment c = k /\ k <> "") then Some pos else None
      end
  end.

(** The metadata requests a refresh sends for the stored coins. *)
Definition metadataRequests (mintData : list PrivateCoin) : list MintRequest :=
  (collectMints 0 mintData [] ∅).1.

Definition duplicateCoin : PrivateCoin :=
  {| value := 50000000; index := 5; commitment := "c01"; serialNumber := "s05";
     groupId := -1; isSpend := false; spendTxId := "" |}.

(** A store in which two coins carry the commitment ["c01"]. *)
Definition duplicateState : ZcoinState :=
  {| mintedCoins := [pendingCoin; duplicateCoin]; disklet := emptyDisklet |}.

(** A chain reporting a commitment the wallet does not hold. *)
Definition chainUnknownCoin : Chain :=
  {| retrieveUsedCoinSerials := [];
     retrieveLatestCoinIds := [];
     retrieveAnonymitySet := fun _ _ => {| blockHash := "b"; serializedCoins := [] |};
     retrieveMintMetadata :=
       fun _ => [ {| pubcoin := "c01"; md_groupId := 3; height := 100 |};
                  {| pubcoin := "c77"; md_groupId := 3; height := 100 |} ] |}.

(** ** zcoinEngineExtension.loop: the amount handed to [mint]

    [bns.div] is the integer quotient; the branch is entered for balances
    above the smallest denomination only, where rounding plays no role. *)
Definition autoMintAmount (needToMint : Z) : option Z :=
  if decide (needToMint > denominations_0) then
    if decide (Z.quot needToMint denominations_0 * denominations_0 = needToMint)
    then Some (needToMint - denominations_0)
    else Some needToMint
  else None.

(** The amounts of the [makeMint] calls in a log, in order. *)
Definition calledAmounts (log : list MintEvent) : list Z :=
  omap (fun ev => match ev with MakeMintCalled a => Some a | _ => None end) log.



Definition twoTargets : EdgeSpendInfo :=
  {| spendTargets :=
       [ {| publicAddress := Some "first"; nativeAmount := Some 5000000;
            otherParams_script := None |};
         {| publicAddress := Some "second"; nativeAmount := Some 10000000;
            otherParams_script := None |} ] |}.

(** The amount of the [k]-th attempt of a mint step that started at
    [amount]. *)
Definition attemptAmount (amount : Z) (k : nat) : Z :=
  amount - Z.of_nat k * denominations_0.

(** ** zcoinEngineExtension.getSpendTransactionValues

    The object built by the method is keyed by transaction ids, which are
    hex strings; it is modelled as a finite map. *)
Definition addSpendValue (spendTransactionValues : gmap string Z)
    (item : PrivateCoin) : gmap string Z :=
  if decide (spendTxId item = "") then spendTransactionValues
  else
    let initialised :=
      if decide (is_Some (spendTransactionValues !! spendTxId item))
      then spendTransactionValues
      else <[spendTxId item := 0]> spendTransactionValues in
    <[spendTxId item := default 0 (initialised !! spendTxId item) + value item]>
      initialised.

Definition getSpendTransactionValues (mintData : list PrivateCoin)
    : gmap string Z :=
  foldl addSpendValue ∅ mintData.

(** The coins spent by transaction [txid]. *)
Definition spentBy (txid : string) (mintData : list PrivateCoin)
    : list PrivateCoin :=
  filter (fun c => spendTxId c = txid) mintData.

(** ** coinUtils.sumTransaction

    An output as the loops read it: [getType()] and the [value] and
    [address] of [getJSON(network)].  [formatAddress] stands for
    [toNewFormat] followed by the network's address serializer, either of
    which may throw. *)
Record OutputJson := mkOutputJson {
  oj_type : string;
  oj_value : Z;
  oj_address : string
}.

Record Prevout := mkPrevout {
  rhash : string;
  prevout_index : nat
}.

Record ParsedTx := mkParsedTx {
  ptx_outputs : list OutputJson;
  ptx_inputs : list (option Prevout)
}.

Record EngineStateView := mkEngineStateView {
  scriptHashes : gmap string string;
  parsedTxs : gmap string ParsedTx
}.

Record TxSummary := mkTxSummary {
  sum_nativeAmount : Z;
  sum_fee : Z;
  sum_ourReceiveAddresses : list string
}.

(** [engineState.scriptHashes[address]] as a condition *)
Definition isOurs (engineState : EngineStateView) (address : string) : bool :=
  match scriptHashes engineState !! address with
  | Some scriptHash => negb (String.eqb scriptHash "")
  | None => false
  end.

Definition isStandard (output : OutputJson) : bool :=
  negb (String.eqb (oj_type output) "nonstandard"
        || String.eqb (oj_type output) "nulldata").

(** One round of the loop over the outputs; the state is
    [(totalOutputAmount, nativeAmount, ourReceiveAddresses)]. *)
Definition outputStep (formatAddress : string -> Result string)
    (engineState : EngineStateView) (acc : Z * Z * list string)
    (output : OutputJson) : Z * Z * list string :=
  let '(totalOutputAmount, nativeAmount, ourReceiveAddresses) := acc in
  let count (address : string) :=
    if isOurs engineState address
    then (totalOutputAmount + oj_value output,
          nativeAmount + oj_value output,
          ourReceiveAddresses ++ [address])
    else (totalOutputAmount + oj_value output, nativeAmount,
          ourReceiveAddresses) in
  if isStandard output then
    match formatAddress (oj_address output) with
    | Ok address => count address
    | Throw _ => if decide (oj_value output <= 0) then acc else count ""
    end
  else acc.

(** One round of the loop over the inputs; the state is
    [(totalInputAmount, nativeAmount)].  Nothing is caught here. *)
Definition inputStep (formatAddress : string -> Result string)
    (engineState : EngineStateView) (acc : Result (Z * Z))
    (input : option Prevout) : Result (Z * Z) :=
  match acc, input with
  | Throw e, _ => Throw e
  | Ok st, None => Ok st
  | Ok (totalInputAmount, nativeAmount), Some prevout =>
      match parsedTxs engineState !! rhash prevout with
      | None => Ok (totalInputAmount, nativeAmount)
      | Some prevoutBcoinTX =>
          match ptx_outputs prevoutBcoinTX !! prevout_index prevout with
          | None => Throw typeError
          | Some output =>
              match formatAddress (oj_address output) with
              | Throw e => Throw e
              | Ok address =>
                  Ok (totalInputAmount + oj_value output,
                      if isOurs engineState address
                      then nativeAmount - oj_value output
                      else nativeAmount)
              end
          end
      end
  end.

Definition sumTransaction (formatAddress : string -> Result string)
    (bcoinTransaction : ParsedTx) (engineState : EngineStateView)
    : Result TxSummary :=
  let '(totalOutputAmount, received, ourReceiveAddresses) :=
    foldl (outputStep formatAddress engineState) (0, 0, [])
      (ptx_outputs bcoinTransaction) in
  match foldl (inputStep formatAddress engineState) (Ok (0, received))
          (ptx_inputs bcoinTransaction) with
  | Throw e => Throw e
  | Ok (totalInputAmount, nativeAmount) =>
      Ok {| sum_nativeAmount := nativeAmount;
            sum_fee := if decide (totalInputAmount = 0) then 0
                       else totalInputAmount - totalOutputAmount;
            sum_ourReceiveAddresses := ourReceiveAddresses |}
  end.

(** The previous output an input spends, when its transaction is known. *)
Definition spentOutput (engineState : EngineStateView) (input : option Prevout)
    : option OutputJson :=
  prevout ← input;
  prevoutBcoinTX ← parsedTxs engineState !! rhash prevout;
  ptx_outputs prevoutBcoinTX !! prevout_index prevout.

(** An output that is counted and goes to an address of the wallet. *)
Definition paysUs (formatAddress : string -> Result string)
    (engineState : EngineStateView) (output : OutputJson) : Prop :=
  isStandard output = true ->
  exists address, formatAddress (oj_address output) = Ok address
                  /\ isOurs engineState address = true.

Definition plainFormat (address : string) : Result string :=
  if String.eqb address "" then Throw typeError else Ok address.

Definition walletView : EngineStateView :=
  {| scriptHashes := {[ "mine" := "h1"; "change" := "h2" ]};
     parsedTxs :=
       {[ "funding" :=
            {| ptx_outputs := [ {| oj_type := "pubkeyhash"; oj_value := 9000;
                                   oj_address := "mine" |} ];
               ptx_inputs := [] |} ]} |}.

(** A transaction that moves the wallet's 9000 units to its own change
    address, paying 1000 units of fee. *)
Definition selfTransfer : ParsedTx :=
  {| ptx_outputs := [ {| oj_type := "pubkeyhash"; oj_value := 8000;
                         oj_address := "change" |};
                      {| oj_type := "nulldata"; oj_value := 0;
                         oj_address := "" |} ];
     ptx_inputs := [ Some {| rhash := "funding"; prevout_index := 0 |} ] |}.

(** A payment received from a wallet whose transactions are not known. *)
Definition incoming : ParsedTx :=
  {| ptx_outputs := [ {| oj_type := "pubkeyhash"; oj_value := 700;
                         oj_address := "mine" |};
                      {| oj_type := "pubkeyhash"; oj_value := 300;
                         oj_address := "theirs" |} ];
     ptx_inputs := [ Some {| rhash := "elsewhere"; prevout_index := 1 |} ] |}.

(** ** coinUtils.createBitcoinMessageSigHash

    Buffers are lists of byte values.  [l >> n] works on the 32-bit signed
    reading of [l]; [Buffer.from(array)] keeps the low eight bits of every
    element. *)
Definition toInt32 (x : Z) : Z := (x + 2 ^ 31) mod 2 ^ 32 - 2 ^ 31.

Definition signedShiftRight (x n : Z) : Z := Z.shiftr (toInt32 x) n.

Definition bufferFromArray (a : list Z) : list Z :=
  (fun x => Z.land x 255) <$> a.

(** [Buffer.from('\x18Bitcoin Signed Message:\n', 'utf8')] *)
Definition MESSAGE_HEADER : list Z :=
  (fun c => Z.of_N (N_of_ascii c))
  <$> String.list_ascii_of_string
        (String "024" ("Bitcoin Signed Message:" ++ String "010" ""))%string.

Definition msgBufLength (l : Z) : list Z :=
  if decide (l < 253) then bufferFromArray [l]
  else if decide (l <= 65535) then
    bufferFromArray [253; l; signedShiftRight l 8]
  else
    bufferFromArray [254; l; signedShiftRight l 8; signedShiftRight l 16;
                     signedShiftRight l 24].

(** The buffer that is hashed. *)
Definition sigHashPayload (messageBytes : list Z) : list Z :=
  MESSAGE_HEADER ++ msgBufLength (Z.of_nat (length messageBytes)) ++ messageBytes.

Definition createBitcoinMessageSigHash (hash256Sync : list Z -> list Z)
    (messageBytes : list Z) : list Z :=
  hash256Sync (hash256Sync (sigHashPayload messageBytes)).

(** The number a little-endian byte sequence stands for. *)
Fixpoint littleEndian (bytes : list Z) : Z :=
  match bytes with
  | [] => 0
  | b :: rest => b + 256 * littleEndian rest
  end.

(** * Properties *)

(** ** The mint loops *)

Example mint_150000000 :
  (fun l => (coinValues l, coinIndices l))
    (getMintCommitmentsForValue 150000000 "k" 7 fixtureIo)
  = ([100000000; 50000000], [8; 9]).
Proof. vm_compute. reflexivity. Qed.

Example hexFromArray_ex : hexFromArray [222; 173; 190; 239; 5] = "deadbeef05".
Proof. reflexivity. Qed.

Section MintLoops.
Variables (privateKey : string) (io : PluginIo).

Lemma newCoins_S d currentIndex n :
  newCoins d privateKey io currentIndex (S n) =
  createPrivateCoin (Z.pos d) privateKey (currentIndex + 1) io
    :: newCoins d privateKey io (currentIndex + 1) n.
Proof.
  unfold newCoins. rewrite <- cons_seq. rewrite fmap_cons. f_equal.
  - f_equal. lia.
  - rewrite <- fmap_S_seq, <- list_fmap_compose.
    apply list_fmap_ext. intros _ i _. simpl. f_equal. lia.
Qed.

Lemma unitsOf_fits d v :
  Z.pos d <= v -> unitsOf d v = S (unitsOf d (v - Z.pos d)).
Proof.
  intros Hle. unfold unitsOf.
  replace (v - Z.pos d) with (v + (-1) * Z.pos d) by lia.
  rewrite Z.div_add by lia.
  assert (0 < v / Z.pos d) by (apply Z.div_str_pos; lia).
  lia.
Qed.

Lemma unitsOf_none d v : ~ Z.pos d <= v -> unitsOf d v = 0%nat.
Proof.
  intros Hlt. unfold unitsOf.
  assert (v / Z.pos d < 1) by (apply Z.div_lt_upper_bound; lia).
  lia.
Qed.

(** The inner loop appends [unitsOf d value] coins, advances the index
    by as much and subtracts their total from the value. *)
Lemma mintWhile_closed d st :
  mintWhile d privateKey io st =
  {| ml_value := ml_value st - Z.of_nat (unitsOf d (ml_value st)) * Z.pos d;
     ml_currentIndex := ml_currentIndex st + Z.of_nat (unitsOf d (ml_value st));
     ml_result :=
       ml_result st
       ++ newCoins d privateKey io (ml_currentIndex st)
            (unitsOf d (ml_value st)) |}.
Proof.
  funelim (mintWhile d privateKey io st).
  - rewrite H. unfold mintBody; simpl.
    rewrite (unitsOf_fits _ (ml_value st)) by assumption.
    rewrite newCoins_S, <- app_assoc. simpl. f_equal; lia.
  - rewrite unitsOf_none by assumption. destruct st; simpl.
    rewrite app_nil_r. f_equal; lia.
Qed.

Lemma mintFor_closed visit st :
  mintFor visit privateKey io st =
  {| ml_value := greedyRemainder visit (ml_value st);
     ml_currentIndex :=
       ml_currentIndex st
       + Z.of_nat (length (greedyCoins visit privateKey io (ml_value st)
                             (ml_currentIndex st)));
     ml_result :=
       ml_result st
       ++ greedyCoins visit privateKey io (ml_value st) (ml_currentIndex st) |}.
Proof.
  revert st. induction visit as [|d rest IH]; intros st; simpl.
  - destruct st; simpl. rewrite app_nil_r. f_equal; lia.
  - rewrite IH, mintWhile_closed. simpl.
    rewrite length_app, <- app_assoc. f_equal.
    unfold newCoins. rewrite length_fmap, length_seq. lia.
Qed.

Lemma newCoins_values d currentIndex n :
  value <$> newCoins d privateKey io currentIndex n = replicate n (Z.pos d).
Proof.
  revert currentIndex. induction n as [|n IH]; intros currentIndex.
  - reflexivity.
  - rewrite newCoins_S. simpl. f_equal. apply IH.
Qed.

Lemma newCoins_indices d currentIndex n :
  index <$> newCoins d privateKey io currentIndex n
  = seqZ (currentIndex + 1) (Z.of_nat n).
Proof.
  revert currentIndex. induction n as [|n IH]; intros currentIndex.
  - reflexivity.
  - rewrite newCoins_S. rewrite Nat2Z.inj_succ, seqZ_cons by lia. simpl.
    f_equal. rewrite IH. f_equal; lia.
Qed.

Lemma greedyCoins_values visit v currentIndex :
  value <$> greedyCoins visit privateKey io v currentIndex = greedyValues visit v.
Proof.
  revert v currentIndex. induction visit as [|d rest IH]; intros v currentIndex; simpl.
  - reflexivity.
  - rewrite fmap_app, newCoins_values, IH. reflexivity.
Qed.

Lemma greedyCoins_indices visit v currentIndex :
  index <$> greedyCoins visit privateKey io v currentIndex
  = seqZ (currentIndex + 1)
      (Z.of_nat (length (greedyCoins visit privateKey io v currentIndex))).
Proof.
  revert v currentIndex. induction visit as [|d rest IH]; intros v currentIndex; simpl.
  - reflexivity.
  - rewrite fmap_app, newCoins_indices, IH, length_app, Nat2Z.inj_add.
    rewrite seqZ_app by lia. f_equal.
    + f_equal. unfold newCoins. rewrite length_fmap, length_seq. reflexivity.
    + f_equal. unfold newCoins. rewrite length_fmap, length_seq. lia.
Qed.

End MintLoops.

Lemma greedy_step_nonneg d v :
  0 <= v -> 0 <= v - Z.of_nat (unitsOf d v) * Z.pos d.
Proof.
  intros Hv. unfold unitsOf.
  assert (0 <= v / Z.pos d) by (apply Z.div_pos; lia).
  rewrite Z2Nat.id by assumption.
  pose proof (Z.mod_pos_bound v (Z.pos d) ltac:(lia)).
  pose proof (Z.div_mod v (Z.pos d) ltac:(lia)). lia.
Qed.

Lemma greedy_step_lt d v : v - Z.of_nat (unitsOf d v) * Z.pos d < Z.pos d.
Proof.
  unfold unitsOf. destruct (Z_lt_le_dec v 0) as [Hneg|Hpos].
  - assert (v / Z.pos d < 0) by (apply Z.div_lt_upper_bound; lia).
    lia.
  - assert (0 <= v / Z.pos d) by (apply Z.div_pos; lia).
    rewrite Z2Nat.id by assumption.
    pose proof (Z.mod_pos_bound v (Z.pos d) ltac:(lia)).
    pose proof (Z.div_mod v (Z.pos d) ltac:(lia)). lia.
Qed.

Lemma greedy_step_le d v : v - Z.of_nat (unitsOf d v) * Z.pos d <= v.
Proof. unfold unitsOf. nia. Qed.

Lemma greedyRemainder_le visit v : greedyRemainder visit v <= v.
Proof.
  revert v. induction visit as [|d rest IH]; intros v; simpl; [lia|].
  pose proof (IH (v - Z.of_nat (unitsOf d v) * Z.pos d)).
  pose proof (greedy_step_le d v). lia.
Qed.

Lemma greedyRemainder_nonneg visit v : 0 <= v -> 0 <= greedyRemainder visit v.
Proof.
  revert v. induction visit as [|d rest IH]; intros v Hv; simpl; [lia|].
  apply IH, greedy_step_nonneg, Hv.
Qed.

Lemma greedyRemainder_lt visit v :
  Forall (fun d => greedyRemainder visit v < Z.pos d) visit.
Proof.
  revert v. induction visit as [|d rest IH]; intros v; simpl; constructor.
  - pose proof (greedyRemainder_le rest (v - Z.of_nat (unitsOf d v) * Z.pos d)).
    pose proof (greedy_step_lt d v). lia.
  - apply IH.
Qed.

Lemma sumZ_app l1 l2 : sumZ (l1 ++ l2) = sumZ l1 + sumZ l2.
Proof. induction l1 as [|x l1 IH]; simpl; [reflexivity|]. rewrite IH. lia. Qed.

Lemma sumZ_replicate n x : sumZ (replicate n x) = Z.of_nat n * x.
Proof. induction n as [|n IH]; simpl; [reflexivity|]. rewrite IH. lia. Qed.

Lemma greedyValues_sum visit v :
  sumZ (greedyValues visit v) = v - greedyRemainder visit v.
Proof.
  revert v. induction visit as [|d rest IH]; intros v; simpl.
  - lia.
  - rewrite sumZ_app, sumZ_replicate, IH. lia.
Qed.

Lemma getMintCommitmentsFor_closed ladder v privateKey currentIndex io :
  getMintCommitmentsFor ladder v privateKey currentIndex io
  = greedyCoins (rev ladder) privateKey io v currentIndex.
Proof.
  unfold getMintCommitmentsFor, mintLoops. rewrite mintFor_closed. reflexivity.
Qed.

(** C4 (as amended).  For every ladder of positive denominations, every
    non-negative target value and every start index,
    [getMintCommitmentsFor] decomposes the value greedily from the last
    (largest) to the first (smallest) denomination; the coin values sum to
    [value - remainder], where the remainder left in the loop variable is
    non-negative and below every denomination of the ladder; the coins carry
    the indices [currentIndex + 1, currentIndex + 2, ...], one per coin; the
    function returns the ordered coin list only, the final index being the
    start index plus the number of coins. *)
Theorem getMintCommitmentsFor_decomposition
    (ladder : list positive) (v : Z) (privateKey : string) (currentIndex : Z)
    (io : PluginIo) :
  0 <= v ->
  let coins := getMintCommitmentsFor ladder v privateKey currentIndex io in
  let final := mintLoops ladder v privateKey currentIndex io in
  coinValues coins = greedyValues (rev ladder) v
  /\ sumZ (coinValues coins) = v - ml_value final
  /\ 0 <= ml_value final
  /\ Forall (fun d => ml_value final < Z.pos d) ladder
  /\ coinIndices coins = seqZ (currentIndex + 1) (Z.of_nat (length coins))
  /\ ml_currentIndex final = currentIndex + Z.of_nat (length coins).
Proof.
  intros Hv coins final.
  assert (Hcoins : coins = greedyCoins (rev ladder) privateKey io v currentIndex)
    by apply getMintCommitmentsFor_closed.
  assert (Hfinal : ml_value final = greedyRemainder (rev ladder) v).
  { unfold final, mintLoops. rewrite mintFor_closed. reflexivity. }
  assert (Hidx : ml_currentIndex final = currentIndex + Z.of_nat (length coins)).
  { rewrite Hcoins. unfold final, mintLoops. rewrite mintFor_closed. reflexivity. }
  assert (Hvals : coinValues coins = greedyValues (rev ladder) v).
  { rewrite Hcoins. apply greedyCoins_values. }
  repeat split.
  - exact Hvals.
  - rewrite Hvals, Hfinal. apply greedyValues_sum.
  - rewrite Hfinal. apply greedyRemainder_nonneg, Hv.
  - rewrite Hfinal. pose proof (greedyRemainder_lt (rev ladder) v) as Hlt.
    rewrite List.Forall_forall in Hlt |- *.
    intros d Hd. apply Hlt. apply -> in_rev. exact Hd.
  - rewrite Hcoins. apply greedyCoins_indices.
  - exact Hidx.
Qed.

Lemma getMintCommitmentsFor_decomposition_witness :
  0 <= 150000000
  /\ (let coins := getMintCommitmentsFor denominations 150000000 "k" 7 fixtureIo in
      let final := mintLoops denominations 150000000 "k" 7 fixtureIo in
      coinValues coins = greedyValues (rev denominations) 150000000
      /\ sumZ (coinValues coins) = 150000000 - ml_value final
      /\ 0 <= ml_value final
      /\ Forall (fun d => ml_value final < Z.pos d) denominations
      /\ coinIndices coins = seqZ (7 + 1) (Z.of_nat (length coins))
      /\ ml_currentIndex final = 7 + Z.of_nat (length coins)).
Proof.
  split; [lia|].
  apply (getMintCommitmentsFor_decomposition denominations 150000000 "k" 7 fixtureIo).
  lia.
Defined.

(** C4, the claim as stated fails twice.  For the target value [-1] no coin is
    minted, so the coin values sum to [0 = -1 - (-1)]: the remainder is
    negative.  And the returned value is the coin list alone: two calls whose
    final indices differ (3 and 7) return the same value. *)
Lemma getMintCommitmentsForValue_not_as_stated :
  (~ exists remainder,
       sumZ (coinValues (getMintCommitmentsForValue (-1) "k" 0 fixtureIo))
         = -1 - remainder
       /\ 0 <= remainder)
  /\ getMintCommitmentsForValue 0 "k" 3 fixtureIo
     = getMintCommitmentsForValue 0 "k" 7 fixtureIo
  /\ ml_currentIndex (mintLoops denominations 0 "k" 3 fixtureIo)
     <> ml_currentIndex (mintLoops denominations 0 "k" 7 fixtureIo).
Proof.
  split; [|split].
  - intros [remainder [Hsum Hpos]].
    assert (Hnone : sumZ (coinValues (getMintCommitmentsForValue (-1) "k" 0 fixtureIo)) = 0)
      by (vm_compute; reflexivity).
    rewrite Hnone in Hsum. lia.
  - vm_compute. reflexivity.
  - vm_compute. discriminate.
Qed.

(** C8.  The coins returned by [getMintCommitmentsForValue] carry exactly the
    indices [currentIndex + 1, currentIndex + 2, ...]: every index is strictly
    greater than the supplied start index, which itself is never assigned,
    and the first coin (when there is one) receives [currentIndex + 1]. *)
Theorem getMintCommitmentsForValue_indices_after_start
    (v : Z) (privateKey : string) (currentIndex : Z) (io : PluginIo) :
  let coins := getMintCommitmentsForValue v privateKey currentIndex io in
  coinIndices coins = seqZ (currentIndex + 1) (Z.of_nat (length coins))
  /\ Forall (fun coin => currentIndex < index coin) coins
  /\ head (coinIndices coins)
     = match coins with [] => None | _ :: _ => Some (currentIndex + 1) end.
Proof.
  intros coins.
  assert (Hidx : coinIndices coins
                 = seqZ (currentIndex + 1) (Z.of_nat (length coins))).
  { unfold coins, getMintCommitmentsForValue.
    rewrite getMintCommitmentsFor_closed. apply greedyCoins_indices. }
  split; [exact Hidx|]. split.
  - apply (Forall_fmap index (fun i => currentIndex < i)).
    fold (coinIndices coins). rewrite Hidx.
    apply Forall_seqZ. intros i Hi. lia.
  - rewrite Hidx. destruct coins as [|c rest]; [reflexivity|].
    simpl length. rewrite Nat2Z.inj_succ, seqZ_cons by lia. reflexivity.
Qed.

(** ** The restore scan *)

Lemma commitmentCount_nonneg groups : 0 <= commitmentCount groups.
Proof. induction groups as [|g groups IH]; simpl; lia. Qed.

Lemma restoreBody_match_resets dataKey io used groups counter idx mintData derived g :
  matchingGroup groups
    (commitment (createPrivateCoin 100000000 dataKey idx io)) = Some g ->
  rs_counter (restoreBody dataKey io used groups counter idx mintData derived) = 0.
Proof. intros Hg. unfold restoreBody. rewrite Hg. reflexivity. Qed.

Lemma restoreBody_miss_counts dataKey io used groups counter idx mintData derived :
  matchingGroup groups
    (commitment (createPrivateCoin 100000000 dataKey idx io)) = None ->
  restoreBody dataKey io used groups counter idx mintData derived
  = {| rs_counter := counter; rs_index := idx; rs_mintData := mintData;
       rs_derived := derived ++ [idx] |}.
Proof. intros Hg. unfold restoreBody. rewrite Hg. reflexivity. Qed.

Lemma restoreBody_invariant dataKey io used groups count st :
  scanInvariant count st ->
  rs_counter st < 100 ->
  rs_index st < count ->
  scanInvariant count
    (restoreBody dataKey io used groups (rs_counter st + 1) (rs_index st + 1)
       (rs_mintData st) (rs_derived st)).
Proof.
  intros (Hidx & Hcnt & Hder) Hc Hi. unfold scanInvariant, restoreBody.
  destruct (matchingGroup _ _); simpl; (split; [lia|]); (split; [lia|]);
    rewrite Hder;
    replace (rs_index st + 1 + 1) with ((rs_index st + 1) + 1) by lia;
    rewrite (seqZ_app 0 (rs_index st + 1) 1) by lia; reflexivity.
Qed.

Lemma restoreWhile_exit dataKey io used groups count st :
  scanInvariant count st ->
  scanExit count (restoreWhile dataKey io used groups count st).
Proof.
  funelim (restoreWhile dataKey io used groups count st); intros Hinv;
    try (match goal with
         | IH : scanInvariant _ _ -> _ |- _ =>
             apply IH; apply restoreBody_invariant; assumption
         end);
    destruct Hinv as (Hidx & Hcnt & Hder); unfold scanExit; simpl.
  - left. repeat split; [lia|lia|assumption].
  - right. assert (rs_index st = count) as Hlast by lia.
    rewrite Hlast in Hder. repeat split; [lia|lia|assumption].
Qed.

(** C1 (as amended).  The scan derives candidates for the consecutive indices
    [0, 1, 2, ...] and stops as soon as the loop test fails, which happens in
    one of two ways: the counter of consecutive misses has reached 100 (it is
    left at 101 and the last index scanned is at most the commitment count),
    or the index has reached the total published commitment count (indices
    [0 .. count] were scanned and at most 100 misses were counted).  It never
    scans an index above the commitment count.  In the loop body a match
    records one coin and resets the counter to 0, a miss leaves counter and
    records as they are. *)
Theorem restoreScan_stops_on_either_bound
    (dataKey : string) (io : PluginIo) (chain : Chain) :
  let final := restoreScan dataKey io chain in
  let count := commitmentCount (loadGroups chain) in
  ((rs_counter final = 101
    /\ rs_index final <= count
    /\ rs_derived final = seqZ 0 (rs_index final + 1))
   \/ (rs_counter final <= 100
       /\ rs_index final = count + 1
       /\ rs_derived final = seqZ 0 (count + 1)))
  /\ forall counter idx mintData derived,
       let after :=
         restoreBody dataKey io (retrieveUsedCoinSerials chain) (loadGroups chain)
           counter idx mintData derived in
       match matchingGroup (loadGroups chain)
               (commitment (createPrivateCoin 100000000 dataKey idx io)) with
       | Some _ =>
           rs_counter after = 0
           /\ length (rs_mintData after) = S (length mintData)
       | None => rs_counter after = counter /\ rs_mintData after = mintData
       end.
Proof.
  intros final count. split.
  - apply restoreWhile_exit.
    pose proof (commitmentCount_nonneg (loadGroups chain)).
    unfold scanInvariant; simpl. repeat split; lia.
  - intros counter idx mintData derived after. subst after.
    destruct (matchingGroup _ _) as [g|] eqn:Hg.
    + split; [eapply restoreBody_match_resets; exact Hg|].
      unfold restoreBody. rewrite Hg. cbn [rs_mintData].
      rewrite length_app. simpl. lia.
    + rewrite (restoreBody_miss_counts _ _ _ _ _ _ _ _ Hg). split; reflexivity.
Qed.

(** C1, the claim as stated fails.  With one published commitment, found at
    index 0, the scan derives indices 0 and 1 only and stops with a single
    miss counted: it does not extend 100 indices past the last known
    commitment.  With 150 published commitments of other wallets it stops
    after indices 0..99, before the index has reached the commitment count. *)
Lemma restoreScan_stops_early :
  (rs_derived (restoreScan "k" fixtureIo chainOneCoin) = [0; 1]
   /\ index <$> rs_mintData (restoreScan "k" fixtureIo chainOneCoin) = [0]
   /\ rs_counter (restoreScan "k" fixtureIo chainOneCoin) = 2)
  /\ (commitmentCount (loadGroups chainForeignCoins) = 150
      /\ rs_derived (restoreScan "k" fixtureIo chainForeignCoins) = seqZ 0 100
      /\ rs_index (restoreScan "k" fixtureIo chainForeignCoins) = 99).
Proof. vm_compute. repeat split; reflexivity. Qed.

Lemma restoreBody_recorded dataKey io used groups counter idx mintData derived :
  Forall (recordedBy dataKey io used groups) mintData ->
  Forall (recordedBy dataKey io used groups)
    (rs_mintData (restoreBody dataKey io used groups counter idx mintData derived)).
Proof.
  intros Hall. unfold restoreBody.
  destruct (matchingGroup _ _) as [g|] eqn:Hg; simpl; [|assumption].
  apply Forall_app. split; [assumption|]. constructor; [|constructor].
  apply find_some in Hg. destruct Hg as [Hin Hmem].
  apply bool_decide_eq_true in Hmem.
  exists g. simpl. split; [apply list_elem_of_In; assumption|].
  split; [assumption|reflexivity].
Qed.

Lemma restoreWhile_recorded dataKey io used groups count st :
  Forall (recordedBy dataKey io used groups) (rs_mintData st) ->
  Forall (recordedBy dataKey io used groups)
    (rs_mintData (restoreWhile dataKey io used groups count st)).
Proof.
  funelim (restoreWhile dataKey io used groups count st); intros Hall;
    try assumption.
  match goal with IH : _ -> _ |- _ => apply IH end.
  apply restoreBody_recorded. assumption.
Qed.

Lemma restoreScan_recorded dataKey io chain :
  Forall (recordedBy dataKey io (retrieveUsedCoinSerials chain) (loadGroups chain))
    (rs_mintData (restoreScan dataKey io chain)).
Proof. apply restoreWhile_recorded. constructor. Qed.

Lemma file_names_differ : RESTORE_FILE <> SIGMA_ENCRYPTED_FILE.
Proof. discriminate. Qed.

(** C10.  Every coin recorded by the restore scan has an empty serial number
    and an empty spend transaction id, whatever its [isSpend] flag, and a
    restore that reports success has persisted exactly these records. *)
Theorem restore_records_have_no_serial
    (dataKey : string) (io : PluginIo) (chain : Chain) :
  Forall (fun c => serialNumber c = "" /\ spendTxId c = "")
    (rs_mintData (restoreScan dataKey io chain))
  /\ forall z : ZcoinState,
       markerRestored (disklet z) = false ->
       (restore dataKey io chain z).1 = true ->
       files (disklet (restore dataKey io chain z).2) !! SIGMA_ENCRYPTED_FILE
       = Some (MintJson (rs_mintData (restoreScan dataKey io chain))).
Proof.
  split.
  - eapply Forall_impl; [apply restoreScan_recorded|].
    intros c (g & _ & _ & ->). split; reflexivity.
  - intros z Hmarker. unfold restore, writeMintedCoins, setText.
    rewrite Hmarker.
    destruct (decide (SIGMA_ENCRYPTED_FILE ∈ unwritable (disklet z)));
      simpl; [discriminate|].
    destruct (decide (RESTORE_FILE ∈ unwritable (disklet z)));
      simpl; [discriminate|].
    intros _. rewrite lookup_insert_ne by apply file_names_differ.
    apply lookup_insert_eq.
Qed.

Lemma restore_records_have_no_serial_witness :
  markerRestored (disklet freshState) = false
  /\ (restore "k" fixtureIo chainOneCoin freshState).1 = true
  /\ files (disklet (restore "k" fixtureIo chainOneCoin freshState).2)
       !! SIGMA_ENCRYPTED_FILE
     = Some (MintJson (rs_mintData (restoreScan "k" fixtureIo chainOneCoin)))
  /\ rs_mintData (restoreScan "k" fixtureIo chainOneCoin)
     = [ {| value := 50000000; index := 0; commitment := "c00";
            serialNumber := ""; groupId := 1; isSpend := true;
            spendTxId := "" |} ].
Proof.
  assert (Hmarker : markerRestored (disklet freshState) = false) by reflexivity.
  assert (Hok : (restore "k" fixtureIo chainOneCoin freshState).1 = true)
    by (vm_compute; reflexivity).
  split; [exact Hmarker|]. split; [exact Hok|]. split.
  - exact (proj2 (restore_records_have_no_serial "k" fixtureIo chainOneCoin)
             freshState Hmarker Hok).
  - vm_compute. reflexivity.
Defined.

(** C7.  Starting from a folder without a valid restore marker: the marker is
    present afterwards only if the rebuilt coin set has been persisted; if
    the write of the coin set or of the marker is rejected, the marker is
    absent afterwards and [restore] returns [false]; [restore] returns [true]
    exactly when the marker is present, so a failed run is repeated on the
    next load. *)
Theorem restore_marker_only_after_coins
    (dataKey : string) (io : PluginIo) (chain : Chain) (z : ZcoinState) :
  markerRestored (disklet z) = false ->
  let mintData := rs_mintData (restoreScan dataKey io chain) in
  let ok := (restore dataKey io chain z).1 in
  let z' := (restore dataKey io chain z).2 in
  (markerRestored (disklet z') = true ->
   files (disklet z') !! SIGMA_ENCRYPTED_FILE = Some (MintJson mintData))
  /\ (SIGMA_ENCRYPTED_FILE ∈ unwritable (disklet z)
      \/ RESTORE_FILE ∈ unwritable (disklet z) ->
      markerRestored (disklet z') = false /\ ok = false)
  /\ (SIGMA_ENCRYPTED_FILE ∉ unwritable (disklet z) ->
      RESTORE_FILE ∉ unwritable (disklet z) ->
      markerRestored (disklet z') = true /\ ok = true)
  /\ ok = markerRestored (disklet z').
Proof.
  intros Hmarker mintData ok z'. subst mintData ok z'.
  unfold restore, writeMintedCoins, setText. rewrite Hmarker.
  set (mintData := rs_mintData (restoreScan dataKey io chain)).
  destruct (decide (SIGMA_ENCRYPTED_FILE ∈ unwritable (disklet z))) as [Hc|Hc];
    simpl.
  { rewrite Hmarker. repeat split; try tauto; congruence. }
  assert (Hkeep : forall u,
             markerRestored
               {| files := <[SIGMA_ENCRYPTED_FILE := MintJson mintData]> (files (disklet z));
                  unwritable := u |} = false).
  { intros u. unfold markerRestored, getText in *. simpl.
    rewrite lookup_insert_ne by (apply not_eq_sym, file_names_differ).
    exact Hmarker. }
  destruct (decide (RESTORE_FILE ∈ unwritable (disklet z))) as [Hm|Hm]; simpl.
  { rewrite Hkeep. repeat split; try tauto; congruence. }
  assert (Hset : markerRestored
            {| files := <[RESTORE_FILE := RestoreJson true]>
                          (<[SIGMA_ENCRYPTED_FILE := MintJson mintData]>
                             (files (disklet z)));
               unwritable := unwritable (disklet z) |} = true).
  { unfold markerRestored, getText. simpl. rewrite lookup_insert_eq. reflexivity. }
  rewrite Hset. repeat split; try tauto.
  intros _. rewrite lookup_insert_ne by apply file_names_differ.
  apply lookup_insert_eq.
Qed.

Example restore_marker_write_rejected :
  (restore "k" fixtureIo chainOneCoin markerRejectingState).1 = false
  /\ markerRestored
       (disklet (restore "k" fixtureIo chainOneCoin markerRejectingState).2)
     = false
  /\ files (disklet (restore "k" fixtureIo chainOneCoin markerRejectingState).2)
       !! RESTORE_FILE = None.
Proof. vm_compute. repeat split; reflexivity. Qed.

Lemma restore_marker_only_after_coins_witness :
  markerRestored (disklet freshState) = false
  /\ (markerRestored (disklet (restore "k" fixtureIo chainOneCoin freshState).2) = true
      /\ (restore "k" fixtureIo chainOneCoin freshState).1 = true).
Proof.
  assert (Hmarker : markerRestored (disklet freshState) = false) by reflexivity.
  split; [exact Hmarker|].
  apply (restore_marker_only_after_coins "k" fixtureIo chainOneCoin freshState Hmarker);
    vm_compute; set_solver.
Defined.

(** ** Group metadata refresh *)







Example refresh_after_five_blocks :
  mintedCoins (getMintMetadataLoop 105 chainConfirming pendingState).2
  = [setGroupId 3 pendingCoin]
  /\ mintedCoins (getMintMetadataLoop 104 chainConfirming pendingState).2
     = [pendingCoin].
Proof. vm_compute. split; reflexivity. Qed.



(** ** Spend selection *)

Lemma insertByValue_perm c l : insertByValue c l ≡ₚ c :: l.
Proof.
  induction l as [|d l IH]; simpl; [reflexivity|].
  destruct (value d <? value c); [reflexivity|].
  rewrite IH. apply Permutation_swap.
Qed.

Lemma sortByValueDesc_perm l : sortByValueDesc l ≡ₚ l.
Proof.
  induction l as [|c l IH]; simpl; [reflexivity|].
  rewrite insertByValue_perm, IH. reflexivity.
Qed.

Lemma insertByValue_descending c l : descending l -> descending (insertByValue c l).
Proof.
  induction l as [|d l IH]; simpl; intros Hl.
  - split; [constructor|exact I].
  - destruct Hl as [Hd Hl]. destruct (value d <? value c) eqn:Hcmp.
    + apply Z.ltb_lt in Hcmp. simpl. split; [|split; assumption].
      constructor; [lia|]. eapply Forall_impl; [exact Hd|]. simpl. intros; lia.
    + apply Z.ltb_ge in Hcmp. simpl. split; [|apply IH, Hl].
      rewrite insertByValue_perm. constructor; assumption.
Qed.

Lemma sortByValueDesc_descending l : descending (sortByValueDesc l).
Proof.
  induction l as [|c l IH]; simpl; [exact I|]. apply insertByValue_descending, IH.
Qed.

Lemma sum_values_cons c l :
  sumZ (coinValues (c :: l)) = value c + sumZ (coinValues l).
Proof. reflexivity. Qed.

Lemma coveringPrefix_Some need l p :
  coveringPrefix need l = Some p ->
  p `prefix_of` l /\ need <= sumZ (coinValues p).
Proof.
  revert need p. induction l as [|c l IH]; intros need p; simpl.
  - destruct (need <=? 0) eqn:Hneed; [|discriminate].
    intros [= <-]. apply Z.leb_le in Hneed. split; [apply prefix_nil|simpl; lia].
  - destruct (need <=? 0) eqn:Hneed.
    + intros [= <-]. apply Z.leb_le in Hneed. split; [apply prefix_nil|simpl; lia].
    + destruct (coveringPrefix (need - value c) l) as [q|] eqn:Hq; [|discriminate].
      simpl. intros [= <-]. destruct (IH _ _ Hq) as [Hpre Hsum].
      split; [apply prefix_cons, Hpre|]. rewrite sum_values_cons. lia.
Qed.

Lemma coveringPrefix_None need l p :
  coveringPrefix need l = None ->
  p `prefix_of` l -> sumZ (coinValues p) < need.
Proof.
  revert need p. induction l as [|c l IH]; intros need p; simpl.
  - destruct (need <=? 0) eqn:Hneed; [discriminate|]. apply Z.leb_gt in Hneed.
    intros _ Hp. apply prefix_nil_inv in Hp. subst p. simpl. lia.
  - destruct (need <=? 0) eqn:Hneed; [discriminate|]. apply Z.leb_gt in Hneed.
    destruct (coveringPrefix (need - value c) l) as [q|] eqn:Hq; [discriminate|].
    intros _ Hp. destruct p as [|d p]; [simpl; lia|].
    pose proof (prefix_cons_inv_1 _ _ _ _ Hp) as ->.
    apply prefix_cons_inv_2 in Hp.
    pose proof (IH _ _ Hq Hp) as Hsum. rewrite sum_values_cons. lia.
Qed.

Lemma sumPositive_app l1 l2 : sumPositive (l1 ++ l2) = sumPositive l1 + sumPositive l2.
Proof. induction l1 as [|c l1 IH]; simpl; [reflexivity|]. rewrite IH. lia. Qed.

Lemma sumPositive_nonneg l : 0 <= sumPositive l.
Proof. induction l as [|c l IH]; simpl; lia. Qed.

Lemma sumPositive_perm l1 l2 : l1 ≡ₚ l2 -> sumPositive l1 = sumPositive l2.
Proof. induction 1; simpl; lia. Qed.

Lemma sum_le_sumPositive l : sumZ (coinValues l) <= sumPositive l.
Proof.
  induction l as [|c l IH]; [simpl; lia|].
  rewrite sum_values_cons. simpl. lia.
Qed.

Lemma submseteq_sum_le sub l : sub ⊆+ l -> sumZ (coinValues sub) <= sumPositive l.
Proof.
  intros Hsub. apply submseteq_Permutation in Hsub. destruct Hsub as [k Hk].
  rewrite (sumPositive_perm _ _ Hk), sumPositive_app.
  pose proof (sum_le_sumPositive sub). pose proof (sumPositive_nonneg k). lia.
Qed.

Lemma descending_nonpositive c l :
  Forall (fun d => value d <= value c) l -> value c <= 0 -> sumPositive l = 0.
Proof.
  induction 1 as [|d l Hd _ IH]; intros Hc; simpl; [reflexivity|].
  rewrite IH by assumption. lia.
Qed.

(** In a list ordered by descending value some prefix collects all the
    positive values. *)
Lemma descending_prefix l :
  descending l -> exists p, p `prefix_of` l /\ sumZ (coinValues p) = sumPositive l.
Proof.
  induction l as [|c l IH]; simpl; intros Hl.
  - exists []. split; [apply prefix_nil|reflexivity].
  - destruct Hl as [Hc Hl]. destruct (Z_le_gt_dec (value c) 0) as [Hneg|Hpos].
    + exists []. split; [apply prefix_nil|]. simpl.
      rewrite (descending_nonpositive c l) by assumption. lia.
    + destruct (IH Hl) as (p & Hp & Hsum). exists (c :: p).
      split; [apply prefix_cons, Hp|]. rewrite sum_values_cons. simpl. lia.
Qed.

Lemma prefix_submseteq (p l : list PrivateCoin) : p `prefix_of` l -> p ⊆+ l.
Proof. intros [k ->]. apply submseteq_inserts_r. reflexivity. Qed.

Lemma filter_submseteq (f : PrivateCoin -> bool) l : List.filter f l ⊆+ l.
Proof.
  induction l as [|c l IH]; simpl; [reflexivity|].
  destruct (f c); [apply submseteq_skip, IH|apply submseteq_cons, IH].
Qed.

Lemma getMintsToSpend_sub approved target : getMintsToSpend approved target ⊆+ approved.
Proof.
  unfold getMintsToSpend.
  destruct (coveringPrefix target (sortByValueDesc approved)) as [p|] eqn:Hp; simpl.
  - apply coveringPrefix_Some in Hp. destruct Hp as [Hp _].
    etrans; [apply prefix_submseteq, Hp|].
    apply Permutation_submseteq, sortByValueDesc_perm.
  - apply submseteq_nil_l.
Qed.

Lemma getMintsToSpend_covers approved target sub :
  sub ⊆+ approved -> target <= sumZ (coinValues sub) ->
  target <= sumZ (coinValues (getMintsToSpend approved target)).
Proof.
  intros Hsub Hsum. unfold getMintsToSpend.
  destruct (coveringPrefix target (sortByValueDesc approved)) as [p|] eqn:Hp; simpl.
  - apply coveringPrefix_Some in Hp. tauto.
  - destruct (descending_prefix _ (sortByValueDesc_descending approved))
      as (q & Hq & Hqsum).
    pose proof (coveringPrefix_None _ _ _ Hp Hq) as Hlt.
    rewrite (sumPositive_perm _ _ (sortByValueDesc_perm approved)) in Hqsum.
    pose proof (submseteq_sum_le _ _ Hsub). lia.
Qed.

Lemma isApproved_spec c :
  isApproved c = true <-> groupId c <> 0 /\ groupId c <> -1 /\ isSpend c = false.
Proof.
  unfold isApproved. rewrite !andb_true_iff, !negb_true_iff, !Z.eqb_neq. tauto.
Qed.

Lemma approvedMints_spec mintData c :
  c ∈ approvedMints mintData
  <-> c ∈ mintData /\ groupId c <> 0 /\ groupId c <> -1 /\ isSpend c = false.
Proof.
  unfold approvedMints. rewrite !list_elem_of_In, filter_In, isApproved_spec.
  reflexivity.
Qed.

(** C3 (as amended).  The approved coins are exactly the stored coins whose
    [groupId] is neither [0] nor [-1] and that are not spent.  The selection
    is a sub-multiset of the approved coins, so it never holds a spent coin or
    one with [groupId = -1]; its values sum to at least the target whenever
    some sub-multiset of the approved coins does; it is empty when none does;
    and an empty selection is surfaced as [InsufficientFundsError]. *)
Theorem selectCoinsToSpend_on_approved (mintData : list PrivateCoin) (target : Z) :
  let approved := approvedMints mintData in
  let selected := getMintsToSpend approved target in
  (forall c, c ∈ approved
             <-> c ∈ mintData /\ groupId c <> 0 /\ groupId c <> -1
                 /\ isSpend c = false)
  /\ selected ⊆+ approved
  /\ Forall (fun c => isSpend c = false /\ groupId c <> -1) selected
  /\ (forall sub, sub ⊆+ approved -> target <= sumZ (coinValues sub) ->
                  target <= sumZ (coinValues selected))
  /\ ((forall sub, sub ⊆+ approved -> sumZ (coinValues sub) < target) ->
      selected = [])
  /\ selectCoinsToSpend mintData target
     = (if decide (selected = []) then Throw insufficientFunds else Ok selected).
Proof.
  intros approved selected.
  assert (Hsub : selected ⊆+ approved) by apply getMintsToSpend_sub.
  split; [intros c; apply approvedMints_spec|].
  split; [exact Hsub|]. split; [|split; [|split]].
  - apply Forall_forall. intros c Hc.
    assert (Happ : c ∈ approved) by (eapply elem_of_submseteq; eassumption).
    apply approvedMints_spec in Happ. tauto.
  - intros sub Hs Hsum. eapply getMintsToSpend_covers; eassumption.
  - intros Hnone. specialize (Hnone selected Hsub).
    subst selected. unfold getMintsToSpend in *.
    destruct (coveringPrefix target (sortByValueDesc approved)) as [p|] eqn:Hp;
      simpl in *; [|reflexivity].
    apply coveringPrefix_Some in Hp. lia.
  - unfold selectCoinsToSpend. fold approved. fold selected.
    destruct selected as [|c rest]; reflexivity.
Qed.

Example select_largest_first :
  value <$> getMintsToSpend
              [approvedCoin 5 1; approvedCoin 50 2; approvedCoin 10 3] 55
  = [50; 10].
Proof. reflexivity. Qed.

Lemma selectCoinsToSpend_on_approved_witness :
  [approvedCoin 50 2] ⊆+ approvedMints [approvedCoin 5 1; approvedCoin 50 2]
  /\ 40 <= sumZ (coinValues [approvedCoin 50 2])
  /\ 40 <= sumZ (coinValues
                   (getMintsToSpend
                      (approvedMints [approvedCoin 5 1; approvedCoin 50 2]) 40)).
Proof.
  assert (Hsub : [approvedCoin 50 2]
                 ⊆+ approvedMints [approvedCoin 5 1; approvedCoin 50 2])
    by (apply submseteq_cons; reflexivity).
  assert (Hsum : 40 <= sumZ (coinValues [approvedCoin 50 2])) by (simpl; lia).
  split; [exact Hsub|]. split; [exact Hsum|].
  exact (proj1 (proj2 (proj2 (proj2
           (selectCoinsToSpend_on_approved
              [approvedCoin 5 1; approvedCoin 50 2] 40))))
           [approvedCoin 50 2] Hsub Hsum).
Defined.

(** C3, the claim as stated fails.  A coin with [groupId = 0] and
    [isSpend = false] satisfies [groupId != -1], yet it is not approved: with
    it as the only stored coin a spend of its full value ends in
    [InsufficientFundsError]. *)
Lemma groupId_zero_is_not_approved :
  let c := {| value := 100; index := 1; commitment := "c01"; serialNumber := "";
              groupId := 0; isSpend := false; spendTxId := "" |} in
  (groupId c <> -1 /\ isSpend c = false /\ 100 <= value c)
  /\ approvedMints [c] = []
  /\ selectCoinsToSpend [c] 100 = Throw insufficientFunds.
Proof. simpl. repeat split; discriminate || lia || reflexivity. Qed.

(** ** Mint build *)

Lemma markPending_pending (mints : list PrivateCoin) :
  Forall isPending (markPending <$> mints).
Proof.
  induction mints as [|c mints IH]; constructor; [|exact IH].
  unfold isPending, markPending. cbn. tauto.
Qed.

Lemma mintTarget_pending eng currentMaxIndex acc t :
  Forall isPending (mintTarget eng currentMaxIndex acc t).2.
Proof. unfold mintTarget. cbn [snd]. apply markPending_pending. Qed.

Lemma mintTargets_pending eng currentMaxIndex targets :
  Forall isPending (mintTargets eng currentMaxIndex targets).2.
Proof.
  unfold mintTargets.
  assert (Hstart : Forall isPending (([], []) : list MintOutput * list PrivateCoin).2)
    by constructor.
  revert Hstart. generalize (([], []) : list MintOutput * list PrivateCoin).
  induction targets as [|t rest IH]; intros acc Hacc.
  - exact Hacc.
  - cbn [foldl]. apply IH, mintTarget_pending.
Qed.

(** C9.  Every coin of [mintsForSave] in a transaction returned by
    [makeMint] has [groupId = -1], [isSpend = false] and [spendTxId = ''],
    although [createPrivateCoin] created it with [groupId = 0]. *)
Theorem makeMint_hands_over_pending_coins
    (eng : Engine) (edgeSpendInfo : EdgeSpendInfo) (txOptions : TxOptions)
    (t : EdgeTransaction) :
  makeMint eng edgeSpendInfo txOptions = Ok t ->
  Forall (fun c => groupId c = -1 /\ isSpend c = false /\ spendTxId c = "")
    (otherParams_mintsForSave t).
Proof.
  unfold makeMint. intros Hrun.
  destruct (decide _); [discriminate|].
  destruct (sumUtxos _) as [available|e]; [|discriminate].
  destruct (decide _); [discriminate|].
  pose proof (mintTargets_pending eng (eng_getLastPrivateCoinIndex eng)
                (spendTargets edgeSpendInfo)) as Hpending.
  destruct (mintTargets _ _ _) as [outs mints]. cbn [snd] in Hpending.
  unfold rethrowFunding in Hrun.
  destruct (eng_createTX _ _ _ _) as [bcoinTx|e];
    [|destruct (decide _); discriminate].
  destruct (patchOutputs _ _ _) as [patched|e];
    [|destruct (decide _); discriminate].
  injection Hrun as <-. exact Hpending.
Qed.

Example makeMint_150000000 :
  makeMint fixtureEngine (mintRequest 150000000) noTxOptions = Ok mintedTx.
Proof. vm_compute. reflexivity. Qed.

Lemma makeMint_hands_over_pending_coins_witness :
  makeMint fixtureEngine (mintRequest 150000000) noTxOptions = Ok mintedTx
  /\ Forall (fun c => groupId c = -1 /\ isSpend c = false /\ spendTxId c = "")
       (otherParams_mintsForSave mintedTx).
Proof.
  split; [exact makeMint_150000000|].
  exact (makeMint_hands_over_pending_coins fixtureEngine (mintRequest 150000000)
           noTxOptions mintedTx makeMint_150000000).
Defined.

(** ** The mint retry loop *)

Lemma makeMint_no_targets eng info :
  spendTargets info = [] ->
  makeMint eng info noTxOptions
  = Throw (mkJsError "Need to provide Spend Targets" "").
Proof.
  intros Hnone. unfold makeMint. rewrite Hnone.
  destruct (decide _) as [_|Hno]; [reflexivity|].
  exfalso. apply Hno. split; [reflexivity|simpl; lia].
Qed.

(** The loop never reaches the [catch] block's read of a missing first
    spend target: without targets [makeMint] fails with another message. *)
Lemma mintTry_returns eng info log :
  exists r, mintTry eng info log = Ok r.
Proof.
  funelim (mintTry eng info log);
    try (eexists; reflexivity);
    try (match goal with IH : exists r, _ |- _ => exact IH end).
  exfalso.
  match goal with
  | Hnone : spendTargets _ = [] |- _ =>
      rewrite (makeMint_no_targets _ _ Hnone) in *
  end.
  match goal with
  | Hthrow : Throw _ = Throw _ |- _ => injection Hthrow as <-
  end.
  simpl in *. discriminate.
Qed.

Lemma mintTry_step eng info log : mintTry eng info log = retryStep eng info log.
Proof.
  unfold retryStep. rewrite mintTry_equation_1.
  destruct (makeMint eng info noTxOptions) as [t|e]; [reflexivity|]. simpl.
  destruct (decide (err_message e = "InsufficientFundsError")); [|reflexivity]. simpl.
  destruct (decide (spendTargets info = [])); [reflexivity|]. simpl.
  destruct (decide (firstAmount info > denominations_0)); reflexivity.
Qed.

(** The log accumulated so far is only ever extended. *)
Lemma mintTry_prepend eng info log :
  forall pre, mintTry eng info (pre ++ log) = prependLog pre (mintTry eng info log).
Proof.
  funelim (mintTry eng info log); intros pre;
    rewrite (mintTry_step _ _ (pre ++ _)); unfold retryStep;
    repeat match goal with
           | Heq : makeMint _ _ _ = _ |- _ => rewrite Heq; clear Heq
           | Heq : decide _ = _ |- _ => rewrite Heq; clear Heq
           end;
    cbn [prependLog]; rewrite <- ?app_assoc; try reflexivity.
  match goal with IH : forall pre, _ |- _ => apply IH end.
Qed.

Lemma mint_prepend eng info info' pre :
  mintTry eng info [] = prependLog pre (mintTry eng info' []) ->
  mint eng info = prependEvents pre (mint eng info').
Proof.
  intros Hrun. unfold mint. rewrite Hrun.
  destruct (mintTry eng info' []) as [[[t|] log]|e]; cbn [prependLog prependEvents];
    [|reflexivity|reflexivity].
  destruct (eng_signTx eng t) as [t1|e]; cbn [prependEvents];
    [|rewrite app_assoc; reflexivity].
  destruct (eng_broadcastTx eng t1) as [t2|e]; cbn [prependEvents];
    [|rewrite app_assoc; reflexivity].
  destruct (eng_saveTx eng t2) as [u|e]; cbn [prependEvents];
    rewrite app_assoc; reflexivity.
Qed.

Lemma mint_returns eng info : exists log, mint eng info = Ok log.
Proof.
  unfold mint. destruct (mintTry_returns eng info []) as [[[t|] log] ->].
  - destruct (eng_signTx eng t) as [t1|e]; [|eexists; reflexivity].
    destruct (eng_broadcastTx eng t1) as [t2|e]; [|eexists; reflexivity].
    destruct (eng_saveTx eng t2) as [u|e]; eexists; reflexivity.
  - eexists; reflexivity.
Qed.

(** C5 (as amended).  [mint] never lets an error escape.  A [makeMint]
    failure whose message is not ['InsufficientFundsError'] ends the mint step
    after that single attempt, with the error logged.  A failure with that
    message also ends it when the amount is not above the smallest
    denomination; otherwise the whole step is run again with the amount
    lowered by the smallest denomination, as often as this applies (not once
    only). *)
Theorem mint_retry_policy (eng : Engine) (info : EdgeSpendInfo) :
  (exists log, mint eng info = Ok log)
  /\ (forall e,
        makeMint eng info noTxOptions = Throw e ->
        err_message e <> "InsufficientFundsError" ->
        mint eng info = Ok [MakeMintCalled (firstAmount info); LoggedMintError e])
  /\ (forall e,
        makeMint eng info noTxOptions = Throw e ->
        err_message e = "InsufficientFundsError" ->
        firstAmount info <= denominations_0 ->
        mint eng info = Ok [MakeMintCalled (firstAmount info); LoggedMintError e])
  /\ (forall e,
        makeMint eng info noTxOptions = Throw e ->
        err_message e = "InsufficientFundsError" ->
        firstAmount info > denominations_0 ->
        exists log',
          mint eng (setFirstAmount (firstAmount info - denominations_0) info)
          = Ok log'
          /\ mint eng info
             = Ok (MakeMintCalled (firstAmount info) :: LoggedMintError e :: log')).
Proof.
  split; [apply mint_returns|]. split; [|split].
  - intros e Hthrow Hother. unfold mint. rewrite mintTry_step. unfold retryStep.
    rewrite Hthrow. destruct (decide _); [contradiction|reflexivity].
  - intros e Hthrow Hfunds Hsmall. unfold mint. rewrite mintTry_step.
    unfold retryStep. rewrite Hthrow.
    destruct (decide (err_message e = _)); [|contradiction].
    destruct (decide (spendTargets info = [])) as [Hnone|Hsome].
    { rewrite (makeMint_no_targets _ _ Hnone) in Hthrow.
      injection Hthrow as <-. discriminate. }
    destruct (decide (firstAmount info > denominations_0)); [lia|reflexivity].
  - intros e Hthrow Hfunds Hlarge.
    destruct (mint_returns eng
                (setFirstAmount (firstAmount info - denominations_0) info))
      as [log' Hlog'].
    exists log'. split; [exact Hlog'|].
    rewrite (mint_prepend eng info
               (setFirstAmount (firstAmount info - denominations_0) info)
               [MakeMintCalled (firstAmount info); LoggedMintError e]).
    + rewrite Hlog'. reflexivity.
    + rewrite mintTry_step. unfold retryStep. rewrite Hthrow.
      destruct (decide (err_message e = _)); [|contradiction].
      destruct (decide (spendTargets info = [])) as [Hnone|Hsome].
      { rewrite (makeMint_no_targets _ _ Hnone) in Hthrow.
        injection Hthrow as <-. discriminate. }
      destruct (decide (firstAmount info > denominations_0)); [|contradiction].
      cbn [app].
      rewrite <- (app_nil_r [MakeMintCalled (firstAmount info); LoggedMintError e])
        at 1.
      apply mintTry_prepend.
Qed.

Example mint_succeeds :
  mint fixtureEngine (mintRequest 150000000)
  = Ok [MakeMintCalled 150000000; LoggedMintTx mintedTx].
Proof. vm_compute. reflexivity. Qed.

Lemma starved_first_attempt :
  makeMint starvedEngine (mintRequest 15000000) noTxOptions = Throw insufficientFunds.
Proof. vm_compute. reflexivity. Qed.

Lemma mint_retry_policy_witness :
  makeMint starvedEngine (mintRequest 15000000) noTxOptions = Throw insufficientFunds
  /\ err_message insufficientFunds = "InsufficientFundsError"
  /\ firstAmount (mintRequest 15000000) > denominations_0
  /\ exists log',
       mint starvedEngine
         (setFirstAmount (firstAmount (mintRequest 15000000) - denominations_0)
            (mintRequest 15000000))
       = Ok log'
       /\ mint starvedEngine (mintRequest 15000000)
          = Ok (MakeMintCalled (firstAmount (mintRequest 15000000))
                  :: LoggedMintError insufficientFunds :: log').
Proof.
  assert (Hlarge : firstAmount (mintRequest 15000000) > denominations_0)
    by (vm_compute; reflexivity).
  split; [exact starved_first_attempt|]. split; [reflexivity|].
  split; [exact Hlarge|].
  exact (proj2 (proj2 (proj2 (mint_retry_policy starvedEngine (mintRequest 15000000))))
           insufficientFunds starved_first_attempt eq_refl Hlarge).
Defined.

Example mint_abandons_on_other_error :
  mint brokenEngine (mintRequest 15000000)
  = Ok [ MakeMintCalled 15000000;
         LoggedMintError (mkJsError "TX failed context check." "") ].
Proof. vm_compute. reflexivity. Qed.

(** C5, the claim as stated fails: the retry is not limited to one.  When
    funding keeps failing, a request for three times the smallest denomination
    is attempted three times (two retries), and a request for exactly the
    smallest denomination is not retried at all. *)
Lemma mint_retries_are_not_once :
  mint starvedEngine (mintRequest 15000000)
  = Ok [ MakeMintCalled 15000000; LoggedMintError insufficientFunds;
         MakeMintCalled 10000000; LoggedMintError insufficientFunds;
         MakeMintCalled 5000000; LoggedMintError insufficientFunds ]
  /\ mint starvedEngine (mintRequest 5000000)
     = Ok [ MakeMintCalled 5000000; LoggedMintError insufficientFunds ].
Proof. vm_compute. split; reflexivity. Qed.

(** ** The CPFP branch of [createTX] *)

Lemma cpfpCompare_NaN a b : cpfpCompare a b = NaN.
Proof. reflexivity. Qed.

(** The comparator never orders two candidates, so the sort leaves the
    array as it was. *)
Lemma arraySort_cpfpCompare utxos : arraySort cpfpCompare utxos = utxos.
Proof.
  unfold arraySort. induction utxos as [|u utxos IH]; [reflexivity|].
  cbn [foldr]. rewrite IH. destruct utxos; reflexivity.
Qed.

(** With a parent transaction id and a positive limit, the candidates handed
    to the funding step are the first [CPFPlimit] outputs of the parent in the
    caller's order, whatever their values. *)
Lemma createTX_request_cpfp_coins utxos changeAddress CPFP CPFPlimit subtractFee r :
  CPFP <> "" -> CPFPlimit <> 0%nat ->
  createTX_request utxos [] changeAddress CPFP CPFPlimit subtractFee = Ok r ->
  fr_coins r
  = take CPFPlimit (List.filter (fun u => bool_decide (txid (tx u) = CPFP)) utxos)
  /\ fr_subtractFee r = true
  /\ exists v, fr_outputs r = [ {| so_address := changeAddress; so_value := v |} ]
               /\ sumUtxos (fr_coins r) = Ok v.
Proof.
  intros Hcpfp Hlimit. unfold createTX_request.
  destruct (decide (CPFP = "")); [contradiction|].
  destruct (decide (CPFPlimit = 0%nat)); [contradiction|].
  rewrite arraySort_cpfpCompare.
  destruct (sumUtxos _) as [v|e] eqn:Hsum; [|discriminate].
  cbn [app length]. destruct (decide _); [discriminate|].
  intros [= <-]. cbn [fr_coins fr_subtractFee fr_outputs].
  split; [reflexivity|]. split; [reflexivity|].
  exists v. split; [reflexivity|exact Hsum].
Qed.

(** C6, evaluated at a parent transaction whose two outputs hold 1000 and
    5000, listed in that order, with [CPFPlimit = 1]: the builder keeps the
    first candidate (1000), not the largest one, and the single output it
    adds carries 1000. *)
Theorem createTX_cpfp_keeps_first_candidate :
  createTX_request [smallCandidate; largeCandidate] [] "change" "parent" 1 false
  = Ok {| fr_outputs := [ {| so_address := "change"; so_value := 1000 |} ];
          fr_coins := [smallCandidate];
          fr_subtractFee := true |}
  /\ utxoValue smallCandidate = Ok 1000
  /\ utxoValue largeCandidate = Ok 5000.
Proof. vm_compute. repeat split; reflexivity. Qed.

Example arraySort_orders_numbers :
  arraySort (fun a b => Num (b - a)) [3; 10; 7] = [10; 7; 3].
Proof. reflexivity. Qed.

(** * Further properties of the modelled code *)

(** ** getMintCommitmentsForValue: exact amounts, order and size *)

Lemma greedyRemainder_congruent (g : Z) visit v :
  0 < g ->
  Forall (fun d => (Z.pos d) mod g = 0) visit ->
  (greedyRemainder visit v) mod g = v mod g.
Proof.
  intros Hg Hall. revert v. induction Hall as [|d rest Hd _ IH]; intros v; simpl.
  - reflexivity.
  - rewrite IH.
    apply Z.mod_divide in Hd; [|lia]. destruct Hd as [k Hk].
    replace (v - Z.of_nat (unitsOf d v) * Z.pos d)
      with (v + (- Z.of_nat (unitsOf d v) * k) * g) by (rewrite Hk; ring).
    apply Z.mod_add. lia.
Qed.

Lemma denominations_multiples :
  Forall (fun d => (Z.pos d) mod 5000000 = 0) (rev denominations).
Proof. repeat constructor. Qed.

Lemma denominations_residue (v : Z) :
  0 <= v -> greedyRemainder (rev denominations) v = v mod 5000000.
Proof.
  intros Hv.
  pose proof (greedyRemainder_nonneg (rev denominations) v Hv) as Hpos.
  pose proof (greedyRemainder_congruent 5000000 (rev denominations) v
                ltac:(lia) denominations_multiples) as Hmod.
  assert (Hsmall : greedyRemainder (rev denominations) v < 5000000).
  { pose proof (greedyRemainder_lt (rev denominations) v) as Hall.
    rewrite Forall_forall in Hall.
    apply (Hall 5000000%positive).
    apply list_elem_of_In. apply -> in_rev. unfold denominations. simpl. tauto. }
  rewrite Z.mod_small in Hmod by lia. exact Hmod.
Qed.

(** X1.  Every denomination is a multiple of the smallest one, so what is left
    unminted of a non-negative value is its residue modulo 5000000: a
    multiple of 5000000 is minted exactly. *)
Theorem getMintCommitmentsForValue_mints_all_but_residue
    (v : Z) (privateKey : string) (currentIndex : Z) (io : PluginIo) :
  0 <= v ->
  sumZ (coinValues (getMintCommitmentsForValue v privateKey currentIndex io))
  = v - v mod 5000000.
Proof.
  intros Hv. unfold getMintCommitmentsForValue.
  rewrite getMintCommitmentsFor_closed.
  unfold coinValues. rewrite greedyCoins_values, greedyValues_sum.
  rewrite denominations_residue by exact Hv. reflexivity.
Qed.

Lemma getMintCommitmentsForValue_mints_all_but_residue_witness :
  0 <= 153000000
  /\ sumZ (coinValues (getMintCommitmentsForValue 153000000 "k" 7 fixtureIo))
     = 153000000 - 153000000 mod 5000000.
Proof.
  split; [lia|].
  apply (getMintCommitmentsForValue_mints_all_but_residue 153000000 "k" 7 fixtureIo).
  lia.
Defined.

Lemma greedyValues_members visit v :
  Forall (fun x => exists d, d ∈ visit /\ x = Z.pos d) (greedyValues visit v).
Proof.
  revert v. induction visit as [|d rest IH]; intros v; simpl; [constructor|].
  apply Forall_app. split.
  - apply Forall_replicate. exists d. split; [left|reflexivity].
  - eapply Forall_impl; [apply IH|]. intros x (d' & Hin & ->).
    exists d'. split; [right; exact Hin|reflexivity].
Qed.

Lemma greedyValues_descending visit v :
  StronglySorted (fun a b => (b <= a)%positive) visit ->
  StronglySorted (fun a b => b <= a) (greedyValues visit v).
Proof.
  intros Hsorted. revert v. induction Hsorted as [|d rest _ IH Hd]; intros v; simpl.
  - constructor.
  - assert (Hrest : Forall (fun x => x <= Z.pos d)
                      (greedyValues rest (v - Z.of_nat (unitsOf d v) * Z.pos d))).
    { eapply Forall_impl; [apply greedyValues_members|].
      intros x (d' & Hin & ->). rewrite Forall_forall in Hd.
      specialize (Hd d' Hin). lia. }
    specialize (IH (v - Z.of_nat (unitsOf d v) * Z.pos d)).
    set (tail := greedyValues rest (v - Z.of_nat (unitsOf d v) * Z.pos d)) in *.
    clearbody tail.
    generalize (unitsOf d v). intros n. induction n as [|n IHn]; simpl.
    + apply IH.
    + constructor; [exact IHn|].
      apply Forall_app. split; [|exact Hrest].
      apply Forall_replicate. lia.
Qed.

Lemma denominations_visit_descending :
  StronglySorted (fun a b => (b <= a)%positive) (rev denominations).
Proof.
  unfold denominations. simpl.
  repeat (constructor; [|repeat (constructor; [lia|]); constructor]).
  constructor.
Qed.

Lemma getMintCommitmentsForValue_values v privateKey currentIndex io :
  coinValues (getMintCommitmentsForValue v privateKey currentIndex io)
  = greedyValues (rev denominations) v.
Proof.
  unfold getMintCommitmentsForValue.
  rewrite getMintCommitmentsFor_closed. apply greedyCoins_values.
Qed.

Lemma getMintCommitmentsForValue_members v privateKey currentIndex io :
  Forall (fun x => exists d, d ∈ denominations /\ x = Z.pos d)
    (coinValues (getMintCommitmentsForValue v privateKey currentIndex io)).
Proof.
  rewrite getMintCommitmentsForValue_values.
  eapply Forall_impl; [apply greedyValues_members|].
  intros x (d & Hin & ->). exists d. split; [|reflexivity].
  apply list_elem_of_In, in_rev, list_elem_of_In, Hin.
Qed.

(** X2.  The coins come out largest first: their values never increase along the
    returned list, and each is one of the seven denominations. *)
Theorem getMintCommitmentsForValue_descending_denominations
    (v : Z) (privateKey : string) (currentIndex : Z) (io : PluginIo) :
  let coins := getMintCommitmentsForValue v privateKey currentIndex io in
  StronglySorted (fun a b => b <= a) (coinValues coins)
  /\ Forall (fun c => exists d, d ∈ denominations /\ value c = Z.pos d) coins.
Proof.
  intros coins. split.
  - unfold coins. rewrite getMintCommitmentsForValue_values.
    apply greedyValues_descending, denominations_visit_descending.
  - pose proof (getMintCommitmentsForValue_members v privateKey currentIndex io)
      as Hmem.
    apply (Forall_fmap value) in Hmem. exact Hmem.
Qed.

(** X3.  Each coin is worth at least the smallest denomination, so a non-negative
    value [v] costs at most [v / 5000000] oracle calls. *)
Theorem getMintCommitmentsForValue_coin_count
    (v : Z) (privateKey : string) (currentIndex : Z) (io : PluginIo) :
  0 <= v ->
  Z.of_nat (length (getMintCommitmentsForValue v privateKey currentIndex io))
  <= v / 5000000.
Proof.
  intros Hv.
  set (coins := getMintCommitmentsForValue v privateKey currentIndex io).
  pose proof (getMintCommitmentsForValue_members v privateKey currentIndex io)
    as Hmem.
  pose proof (getMintCommitmentsForValue_values v privateKey currentIndex io)
    as Hvals.
  fold coins in Hmem, Hvals.
  assert (Hsum : sumZ (coinValues coins) <= v).
  { rewrite Hvals, greedyValues_sum.
    pose proof (greedyRemainder_nonneg (rev denominations) v Hv). lia. }
  assert (Hbig : Z.of_nat (length coins) * 5000000 <= sumZ (coinValues coins)).
  { replace (length coins) with (length (coinValues coins))
      by (unfold coinValues; apply length_fmap).
    clear Hvals Hsum. induction Hmem as [|x l (d & Hin & ->) _ IH]; simpl; [lia|].
    assert (5000000 <= Z.pos d).
    { unfold denominations in Hin.
      repeat (apply elem_of_cons in Hin; destruct Hin as [->|Hin]; [lia|]).
      apply elem_of_nil in Hin. contradiction. }
    lia. }
  apply Z.div_le_lower_bound; lia.
Qed.

Lemma getMintCommitmentsForValue_coin_count_witness :
  0 <= 153000000
  /\ Z.of_nat (length (getMintCommitmentsForValue 153000000 "k" 7 fixtureIo))
     <= 153000000 / 5000000.
Proof.
  split; [lia|].
  apply (getMintCommitmentsForValue_coin_count 153000000 "k" 7 fixtureIo). lia.
Defined.

(** ** hexFromArray *)

Lemma hexDigit_char n :
  0 <= n < 16 ->
  exists c, hexDigit n = String c EmptyString /\ hexValue c = n.
Proof.
  intros Hn.
  destruct n as [|p|p]; [eexists; split; reflexivity| |lia].
  do 4 (try destruct p as [p|p|]); try lia; eexists; split; reflexivity.
Qed.

Lemma hexByte_chars byte :
  exists hi lo,
    hexByte byte = String hi (String lo EmptyString)
    /\ 16 * hexValue hi + hexValue lo = Z.land byte 255.
Proof.
  unfold hexByte. set (b := Z.land byte 255).
  assert (Hb : 0 <= b < 256).
  { unfold b. change 255 with (Z.ones 8). rewrite Z.land_ones by lia.
    apply Z.mod_pos_bound. lia. }
  assert (Hhi : Z.shiftr b 4 = b / 16)
    by (rewrite Z.shiftr_div_pow2 by lia; reflexivity).
  assert (Hlo : Z.land b 15 = b mod 16)
    by (change 15 with (Z.ones 4); rewrite Z.land_ones by lia; reflexivity).
  rewrite Hhi, Hlo.
  destruct (hexDigit_char (b / 16)) as (hi & -> & Hvhi).
  { split; [apply Z.div_pos; lia|apply Z.div_lt_upper_bound; lia]. }
  destruct (hexDigit_char (b mod 16)) as (lo & -> & Hvlo).
  { apply Z.mod_pos_bound. lia. }
  exists hi, lo. split; [reflexivity|].
  rewrite Hvhi, Hvlo. pose proof (Z.div_mod b 16 ltac:(lia)). lia.
Qed.

(** X4.  [hexFromArray] writes exactly two hexadecimal digits per byte, and reading
    them back gives the bytes again (each taken modulo 256): two arrays of
    bytes never share a hexadecimal form. *)
Theorem hexFromArray_reads_back (array : list Z) :
  bytesFromHex (hexFromArray array) = (fun byte => Z.land byte 255) <$> array
  /\ String.length (hexFromArray array) = (2 * length array)%nat.
Proof.
  induction array as [|byte array [IHbytes IHlen]]; [split; reflexivity|].
  change (hexFromArray (byte :: array))
    with ((hexByte byte ++ hexFromArray array)%string).
  destruct (hexByte_chars byte) as (hi & lo & -> & Hvalue).
  remember (hexFromArray array) as rest eqn:Hrest.
  change ((String hi (String lo EmptyString) ++ rest)%string)
    with (String hi (String lo rest)).
  change (bytesFromHex (String hi (String lo rest)))
    with ((16 * hexValue hi + hexValue lo) :: bytesFromHex rest).
  change (String.length (String hi (String lo rest)))
    with (S (S (String.length rest))).
  rewrite IHbytes, IHlen, Hvalue. split; [reflexivity|simpl; lia].
Qed.

(** ** sumUtxos *)

Lemma sumUtxosFrom_all_present s utxos :
  Forall (fun u => is_Some (utxoOutput u)) utxos ->
  sumUtxosFrom s utxos = Ok (s + sumZ (utxoAmount <$> utxos)).
Proof.
  intros Hall. revert s. induction Hall as [|u utxos [o Ho] _ IH]; intros s.
  - simpl. f_equal. lia.
  - cbn [sumUtxosFrom]. unfold utxoValue. fold (utxoOutput u). rewrite Ho.
    rewrite IH. cbn [fmap list_fmap sumZ foldr]. unfold utxoAmount at 2.
    rewrite Ho. simpl. f_equal. fold (sumZ (utxoAmount <$> utxos)). lia.
Qed.

Lemma sumUtxosFrom_dangling s utxos :
  Exists (fun u => utxoOutput u = None) utxos ->
  sumUtxosFrom s utxos = Throw typeError.
Proof.
  intros Hex. revert s. induction utxos as [|u utxos IH]; intros s.
  - inversion Hex.
  - cbn [sumUtxosFrom]. unfold utxoValue. fold (utxoOutput u).
    destruct (utxoOutput u) as [o|] eqn:Ho; [|reflexivity].
    apply IH. inversion Hex as [? ? Hu|? ? Hrest]; subst; [congruence|exact Hrest].
Qed.

Lemma sumUtxos_cases (utxos : list Utxo) :
  (Forall (fun u => is_Some (utxoOutput u)) utxos
   /\ sumUtxos utxos = Ok (sumZ (utxoAmount <$> utxos)))
  \/ (Exists (fun u => utxoOutput u = None) utxos
      /\ sumUtxos utxos = Throw typeError).
Proof.
  destruct (decide (Forall (fun u => is_Some (utxoOutput u)) utxos)) as [Hall|Hnot].
  - left. split; [exact Hall|]. unfold sumUtxos.
    rewrite sumUtxosFrom_all_present by exact Hall. f_equal.
  - right. apply not_Forall_Exists in Hnot; [|intros u; apply _].
    assert (Hex : Exists (fun u => utxoOutput u = None) utxos).
    { eapply Exists_impl; [exact Hnot|]. intros u Hu. simpl in Hu.
      destruct (utxoOutput u); [exfalso; apply Hu; eexists; reflexivity|reflexivity]. }
    split; [exact Hex|]. apply sumUtxosFrom_dangling, Hex.
Qed.

Lemma sumUtxos_app utxos1 utxos2 v1 v2 :
  sumUtxos utxos1 = Ok v1 -> sumUtxos utxos2 = Ok v2 ->
  sumUtxos (utxos1 ++ utxos2) = Ok (v1 + v2).
Proof.
  intros H1 H2.
  destruct (sumUtxos_cases utxos1) as [[Ha1 Hs1]|[_ Hs1]];
    [|congruence].
  destruct (sumUtxos_cases utxos2) as [[Ha2 Hs2]|[_ Hs2]];
    [|congruence].
  unfold sumUtxos. rewrite sumUtxosFrom_all_present by (apply Forall_app; tauto).
  rewrite fmap_app, sumZ_app. f_equal.
  rewrite Hs1 in H1. rewrite Hs2 in H2. injection H1 as <-. injection H2 as <-. lia.
Qed.

(** X5.  [sumUtxos] adds up the values the unspent outputs point at; it succeeds
    exactly when every one of them points at an existing output of its
    transaction, and otherwise throws a [TypeError]; the sum of two lists put
    together is the sum of their sums. *)
Theorem sumUtxos_total_or_TypeError (utxos : list Utxo) :
  ((Forall (fun u => is_Some (utxoOutput u)) utxos
    /\ sumUtxos utxos = Ok (sumZ (utxoAmount <$> utxos)))
   \/ (Exists (fun u => utxoOutput u = None) utxos
       /\ sumUtxos utxos = Throw typeError))
  /\ forall more v w,
       sumUtxos utxos = Ok v -> sumUtxos more = Ok w ->
       sumUtxos (utxos ++ more) = Ok (v + w).
Proof.
  split; [apply sumUtxos_cases|].
  intros more v w Hv Hw. apply sumUtxos_app; assumption.
Qed.

(** ** createTX *)

Lemma createTX_request_cpfp_unfold utxos outputs0 changeAddress CPFP CPFPlimit
    subtractFee :
  CPFP <> "" ->
  createTX_request utxos outputs0 changeAddress CPFP CPFPlimit subtractFee
  = match sumUtxos (cpfpCandidates utxos CPFP CPFPlimit) with
    | Ok v =>
        Ok {| fr_outputs := outputs0 ++ [mkStandardOutput changeAddress v];
              fr_coins := cpfpCandidates utxos CPFP CPFPlimit;
              fr_subtractFee := true |}
    | Throw e => Throw e
    end.
Proof.
  intros Hcpfp. unfold createTX_request, cpfpCandidates.
  destruct (decide (CPFP = "")); [contradiction|].
  rewrite arraySort_cpfpCompare.
  destruct (sumUtxos _) as [v|e]; [|reflexivity].
  destruct (decide _) as [Hlen|_]; [|reflexivity].
  rewrite length_app in Hlen. simpl in Hlen. lia.
Qed.

(** X6.  The request is rejected in two cases only: without a CPFP parent when the
    caller gave no output (["No outputs available."]), and with a CPFP parent
    when one of the kept candidates points outside its transaction
    ([TypeError]).  In particular a CPFP build is never rejected for lack of
    outputs, not even when no candidate belongs to the parent. *)
Theorem createTX_request_failures
    (utxos : list Utxo) (outputs0 : list StandardOutput) (changeAddress CPFP : string)
    (CPFPlimit : nat) (subtractFee : bool) (e : JsError) :
  createTX_request utxos outputs0 changeAddress CPFP CPFPlimit subtractFee = Throw e
  <-> (CPFP = "" /\ outputs0 = [] /\ e = mkJsError "No outputs available." "")
      \/ (CPFP <> "" /\ e = typeError
          /\ Exists (fun u => utxoOutput u = None)
               (cpfpCandidates utxos CPFP CPFPlimit)).
Proof.
  destruct (decide (CPFP = "")) as [Hnone|Hcpfp].
  - unfold createTX_request. destruct (decide (CPFP = "")); [|contradiction].
    destruct outputs0 as [|o outputs0]; simpl.
    + split; [intros [= <-]; left; tauto|].
      intros [(_ & _ & ->)|(Hne & _)]; [reflexivity|contradiction].
    + split; [discriminate|].
      intros [(_ & Hnil & _)|(Hne & _)]; [discriminate|contradiction].
  - rewrite createTX_request_cpfp_unfold by exact Hcpfp.
    destruct (sumUtxos_cases (cpfpCandidates utxos CPFP CPFPlimit))
      as [[Hall ->]|[Hex ->]].
    + split; [discriminate|].
      intros [(Hnone & _)|(_ & _ & Hex)]; [contradiction|].
      exfalso. rewrite Forall_forall in Hall. apply Exists_exists in Hex.
      destruct Hex as (u & Hin & Hu). destruct (Hall u Hin) as [o Ho]. congruence.
    + split.
      * intros [= <-]. right. tauto.
      * intros [(Hnone & _)|(_ & -> & _)]; [contradiction|reflexivity].
Qed.

Lemma filter_sublist {A : Type} (f : A -> bool) (l : list A) :
  List.filter f l `sublist_of` l.
Proof.
  induction l as [|x l IH]; simpl; [constructor|].
  destruct (f x); [apply sublist_skip, IH|apply sublist_cons, IH].
Qed.

Lemma cpfpCandidates_of_parent utxos CPFP CPFPlimit :
  Forall (fun u => txid (tx u) = CPFP) (cpfpCandidates utxos CPFP CPFPlimit)
  /\ cpfpCandidates utxos CPFP CPFPlimit `sublist_of` utxos
  /\ (CPFPlimit <> 0%nat ->
      (length (cpfpCandidates utxos CPFP CPFPlimit) <= CPFPlimit)%nat).
Proof.
  unfold cpfpCandidates.
  assert (Hparent : Forall (fun u => txid (tx u) = CPFP)
                      (List.filter (fun u => bool_decide (txid (tx u) = CPFP)) utxos)).
  { apply Forall_forall. intros u Hu. apply list_elem_of_In, filter_In in Hu.
    destruct Hu as [_ Hu]. apply bool_decide_eq_true in Hu. exact Hu. }
  destruct (decide (CPFPlimit = 0%nat)) as [->|Hlimit].
  - split; [exact Hparent|]. split; [apply filter_sublist|]. intros Hne. lia.
  - split; [apply Forall_take, Hparent|]. split.
    + etrans; [apply sublist_take|apply filter_sublist].
    + intros _. rewrite length_take. lia.
Qed.

(** X7.  A CPFP request that is accepted spends outputs of the parent transaction
    only, in the caller's order and at most [CPFPlimit] of them (all of them
    when the limit is 0); it forces the fee to be subtracted from the outputs
    and appends one output to the change address that carries the whole value
    of the kept candidates. *)
Theorem createTX_request_cpfp
    (utxos : list Utxo) (outputs0 : list StandardOutput) (changeAddress CPFP : string)
    (CPFPlimit : nat) (subtractFee : bool) (request : FundRequest) :
  CPFP <> "" ->
  createTX_request utxos outputs0 changeAddress CPFP CPFPlimit subtractFee
  = Ok request ->
  Forall (fun u => txid (tx u) = CPFP) (fr_coins request)
  /\ fr_coins request `sublist_of` utxos
  /\ (CPFPlimit <> 0%nat -> (length (fr_coins request) <= CPFPlimit)%nat)
  /\ fr_subtractFee request = true
  /\ fr_outputs request
     = outputs0
       ++ [ {| so_address := changeAddress;
               so_value := sumZ (utxoAmount <$> fr_coins request) |} ].
Proof.
  intros Hcpfp. rewrite createTX_request_cpfp_unfold by exact Hcpfp.
  destruct (sumUtxos_cases (cpfpCandidates utxos CPFP CPFPlimit))
    as [[Hall ->]|[Hex ->]]; [|discriminate].
  intros [= <-]. cbn [fr_coins fr_subtractFee fr_outputs].
  destruct (cpfpCandidates_of_parent utxos CPFP CPFPlimit) as (Hp & Hs & Hl).
  repeat split; assumption.
Qed.

Lemma createTX_request_cpfp_witness :
  "parent" <> ""
  /\ createTX_request [smallCandidate; fundedUtxo; largeCandidate] [] "change"
       "parent" 0 false
     = Ok {| fr_outputs := [ {| so_address := "change"; so_value := 6000 |} ];
             fr_coins := [smallCandidate; largeCandidate];
             fr_subtractFee := true |}
  /\ Forall (fun u => txid (tx u) = "parent") [smallCandidate; largeCandidate].
Proof.
  assert (Hparent : "parent" <> "") by discriminate.
  assert (Hrun : createTX_request [smallCandidate; fundedUtxo; largeCandidate] []
                   "change" "parent" 0 false
                 = Ok {| fr_outputs := [ {| so_address := "change"; so_value := 6000 |} ];
                         fr_coins := [smallCandidate; largeCandidate];
                         fr_subtractFee := true |})
    by (vm_compute; reflexivity).
  split; [exact Hparent|]. split; [exact Hrun|].
  exact (proj1 (createTX_request_cpfp _ _ _ _ _ _ _ Hparent Hrun)).
Defined.

(** X8.  A transaction returned by [createTX] is the funded transaction of the
    prepared request, with the same outputs and the same inputs; with
    [setRBF] every input carries the sequence number [0xfffffffd], which is
    below the final values [0xfffffffe] and [0xffffffff], and without it the
    funded transaction is returned as it is; and when a height is given, the
    returned transaction has passed the consensus check of its inputs. *)
Theorem createTX_result
    (lib : Bcoin) (utxos : list Utxo) (outputs0 : list StandardOutput)
    (changeAddress : string) (rate height : Z) (CPFP : string) (CPFPlimit : nat)
    (subtractFee setRBF : bool) (mtx : Mtx) :
  createTX lib utxos outputs0 changeAddress rate height CPFP CPFPlimit
    subtractFee setRBF = Ok mtx ->
  exists request funded,
    createTX_request utxos outputs0 changeAddress CPFP CPFPlimit subtractFee
    = Ok request
    /\ bcoin_fund lib request rate height = Ok funded
    /\ mtx_outputs mtx = mtx_outputs funded
    /\ in_prevout <$> mtx_inputs mtx = in_prevout <$> mtx_inputs funded
    /\ (setRBF = true ->
        Forall (fun input => in_sequence input = 4294967293
                             /\ in_sequence input < 4294967294)
          (mtx_inputs mtx))
    /\ (setRBF = false -> mtx = funded)
    /\ (height <> -1 -> bcoin_verifyInputs lib mtx height = true).
Proof.
  unfold createTX. intros Hrun.
  destruct (createTX_request _ _ _ _ _ _) as [request|e]; [|discriminate].
  destruct (bcoin_fund lib request rate height) as [funded|e] eqn:Hfund;
    [|discriminate].
  exists request, funded. split; [reflexivity|]. split; [exact Hfund|].
  assert (Hshape :
            let m := if setRBF then markReplaceable funded else funded in
            mtx_outputs m = mtx_outputs funded
            /\ in_prevout <$> mtx_inputs m = in_prevout <$> mtx_inputs funded
            /\ (setRBF = true ->
                Forall (fun input => in_sequence input = 4294967293
                                     /\ in_sequence input < 4294967294)
                  (mtx_inputs m))
            /\ (setRBF = false -> m = funded)).
  { destruct setRBF; cbn.
    - split; [reflexivity|]. split.
      + rewrite <- list_fmap_compose. apply list_fmap_ext. reflexivity.
      + split; [|discriminate]. intros _. apply Forall_fmap, Forall_true.
        intros input. cbn. unfold RBF_SEQUENCE_NUM. lia.
    - repeat split; try reflexivity. discriminate. }
  cbv zeta in Hshape. destruct Hshape as (Ho & Hi & Hr & Hn).
  destruct (decide (height <> -1)) as [Hh|Hh].
  - destruct (bcoin_verifyInputs lib _ height) eqn:Hverify; [|discriminate].
    injection Hrun as <-. repeat split; try assumption. intros _. exact Hverify.
  - injection Hrun as <-. repeat split; try assumption. intros Hne. contradiction.
Qed.

Lemma createTX_result_witness :
  exists mtx,
    createTX fixtureBcoin [fundedUtxo] [mkStandardOutput "payee" 1000] "change"
      1000 100 "" 1 false true = Ok mtx
    /\ Forall (fun input => in_sequence input = 4294967293
                            /\ in_sequence input < 4294967294)
         (mtx_inputs mtx).
Proof.
  eexists. split; [vm_compute; reflexivity|].
  assert (Hrun : createTX fixtureBcoin [fundedUtxo] [mkStandardOutput "payee" 1000]
                   "change" 1000 100 "" 1 false true
                 = Ok {| mtx_outputs := [mkStandardOutput "payee" 1000];
                         mtx_inputs := [ {| in_prevout := ("funding", 0%nat);
                                            in_sequence := 4294967293 |} ] |})
    by (vm_compute; reflexivity).
  destruct (createTX_result _ _ _ _ _ _ _ _ _ _ _ Hrun)
    as (request & funded & _ & _ & _ & _ & Hrbf & _).
  exact (Hrbf eq_refl).
Defined.

(** ** restore: what is recorded, how far the scan reaches, what is touched *)

Lemma restoreBody_record dataKey io used groups counter idx mintData derived :
  let after := restoreBody dataKey io used groups counter idx mintData derived in
  rs_mintData after
  = mintData ++ omap (restoredRecord dataKey io used groups) [idx]
  /\ rs_derived after = derived ++ [idx]
  /\ rs_index after = idx.
Proof.
  unfold restoreBody, restoredRecord. cbn [omap list_omap].
  destruct (matchingGroup _ _); cbn; rewrite ?app_nil_r; repeat split; reflexivity.
Qed.

Lemma restoreWhile_records dataKey io used groups count st :
  rs_mintData st = omap (restoredRecord dataKey io used groups) (rs_derived st) ->
  rs_mintData (restoreWhile dataKey io used groups count st)
  = omap (restoredRecord dataKey io used groups)
      (rs_derived (restoreWhile dataKey io used groups count st)).
Proof.
  funelim (restoreWhile dataKey io used groups count st); intros Hst;
    try exact Hst.
  match goal with IH : _ -> _ |- _ => apply IH end.
  match goal with
  | |- context [restoreBody ?k ?i ?u ?g ?c ?x ?m ?d] =>
      destruct (restoreBody_record k i u g c x m d) as (-> & -> & _)
  end.
  rewrite omap_app, Hst. reflexivity.
Qed.

(** X9.  The coins a restore scan records are, in scan order, exactly the records
    of the derived indices whose commitment some group publishes: none is
    skipped, none is recorded twice, and each takes the denomination and id
    of the first group holding its commitment and is marked spent exactly
    when the derived serial is among the used ones. *)
Theorem restoreScan_records_matching_indices
    (dataKey : string) (io : PluginIo) (chain : Chain) :
  rs_mintData (restoreScan dataKey io chain)
  = omap (restoredRecord dataKey io (retrieveUsedCoinSerials chain)
            (loadGroups chain))
      (rs_derived (restoreScan dataKey io chain)).
Proof. apply restoreWhile_records. reflexivity. Qed.

Example restoreScan_two_coins :
  rs_derived (restoreScan "k" fixtureIo chainTwoCoins) = seqZ 0 53
  /\ (fun c => (index c, isSpend c))
       <$> rs_mintData (restoreScan "k" fixtureIo chainTwoCoins)
     = [(0, false); (2, true)].
Proof. vm_compute. split; reflexivity. Qed.

Lemma restoreBody_window dataKey io used groups count st :
  scanInvariant count st ->
  scanWindow dataKey io groups st ->
  scanWindow dataKey io groups
    (restoreBody dataKey io used groups (rs_counter st + 1) (rs_index st + 1)
       (rs_mintData st) (rs_derived st)).
Proof.
  intros (Hidx & Hcnt & _) (Hbound & Hmiss). unfold scanWindow, restoreBody.
  destruct (matchingGroup _ _) eqn:Hg; cbn.
  - split; [lia|]. intros j Hj. lia.
  - split; [lia|]. intros j Hj.
    destruct (decide (j = rs_index st + 1)) as [->|Hne]; [exact Hg|].
    apply Hmiss. lia.
Qed.

Lemma restoreWhile_window dataKey io used groups count st :
  scanInvariant count st ->
  scanWindow dataKey io groups st ->
  rs_counter (restoreWhile dataKey io used groups count st) = 101 ->
  100 <= rs_index (restoreWhile dataKey io used groups count st) + 1
  /\ forall j,
       rs_index (restoreWhile dataKey io used groups count st) - 100 < j
       <= rs_index (restoreWhile dataKey io used groups count st) ->
       isMiss dataKey io groups j.
Proof.
  funelim (restoreWhile dataKey io used groups count st); intros Hinv Hwin;
    try (match goal with
         | IH : scanInvariant _ _ -> _ |- _ =>
             intros Hfinal; apply IH;
             [apply restoreBody_invariant; assumption
             |eapply restoreBody_window; eassumption
             |exact Hfinal]
         end);
    destruct Hinv as (Hidx & Hcnt & _); destruct Hwin as (Hbound & Hmiss); cbn;
    intros Hfinal.
  - assert (rs_counter st = 100) as Hc by lia. rewrite Hc in *.
    split; [lia|exact Hmiss].
  - exfalso. lia.
Qed.

(** X10.  The miss counter is a gap limit: every index from 0 up to the published
    commitment count is derived by the scan, unless 100 consecutive indices
    before it all missed. *)
Theorem restoreScan_reaches_unless_gap
    (dataKey : string) (io : PluginIo) (chain : Chain) (i : Z) :
  0 <= i <= commitmentCount (loadGroups chain) ->
  i ∈ rs_derived (restoreScan dataKey io chain)
  \/ exists k, 0 <= k /\ k + 99 < i
               /\ forall j, k <= j <= k + 99 ->
                            isMiss dataKey io (loadGroups chain) j.
Proof.
  intros Hi.
  pose proof (commitmentCount_nonneg (loadGroups chain)) as Hcount.
  assert (Hinv : scanInvariant (commitmentCount (loadGroups chain))
                   {| rs_counter := 0; rs_index := -1; rs_mintData := [];
                      rs_derived := [] |}).
  { unfold scanInvariant; simpl. repeat split; lia. }
  assert (Hwin : scanWindow dataKey io (loadGroups chain)
                   {| rs_counter := 0; rs_index := -1; rs_mintData := [];
                      rs_derived := [] |}).
  { unfold scanWindow; simpl. split; [lia|]. intros j Hj. lia. }
  pose proof (restoreWhile_exit dataKey io (retrieveUsedCoinSerials chain)
                (loadGroups chain) _ _ Hinv) as Hexit.
  pose proof (restoreWhile_window dataKey io (retrieveUsedCoinSerials chain)
                (loadGroups chain) _ _ Hinv Hwin) as Hgap.
  fold (restoreScan dataKey io chain) in Hexit, Hgap.
  destruct Hexit as [(Hc & Hle & Hder)|(_ & _ & Hder)].
  - destruct (Z_le_gt_dec i (rs_index (restoreScan dataKey io chain))) as [Hin|Hout].
    + left. rewrite Hder. apply elem_of_seqZ. lia.
    + right. destruct (Hgap Hc) as [Hlong Hmiss].
      exists (rs_index (restoreScan dataKey io chain) - 99).
      split; [lia|]. split; [lia|]. intros j Hj. apply Hmiss. lia.
  - left. rewrite Hder. apply elem_of_seqZ. lia.
Qed.

Lemma restoreScan_reaches_unless_gap_witness :
  0 <= 2 <= commitmentCount (loadGroups chainTwoCoins)
  /\ (2 ∈ rs_derived (restoreScan "k" fixtureIo chainTwoCoins)
      \/ exists k, 0 <= k /\ k + 99 < 2
                   /\ forall j, k <= j <= k + 99 ->
                                isMiss "k" fixtureIo (loadGroups chainTwoCoins) j).
Proof.
  assert (Hrange : 0 <= 2 <= commitmentCount (loadGroups chainTwoCoins))
    by (vm_compute; split; discriminate).
  split; [exact Hrange|].
  exact (restoreScan_reaches_unless_gap "k" fixtureIo chainTwoCoins 2 Hrange).
Defined.

Lemma restore_marker_result dataKey io chain z :
  (restore dataKey io chain z).1
  = markerRestored (disklet (restore dataKey io chain z).2).
Proof.
  unfold restore. destruct (markerRestored (disklet z)) eqn:Hmarker;
    [cbn; congruence|].
  unfold writeMintedCoins, setText.
  destruct (decide (SIGMA_ENCRYPTED_FILE ∈ unwritable (disklet z))); cbn;
    [congruence|].
  destruct (decide (RESTORE_FILE ∈ unwritable (disklet z))); cbn.
  - unfold markerRestored, getText in *. cbn.
    rewrite lookup_insert_ne by (apply not_eq_sym, file_names_differ).
    congruence.
  - unfold markerRestored, getText. cbn. rewrite lookup_insert_eq. reflexivity.
Qed.

(** X11.  Once [restore] has reported success, running it again reports success
    at once and changes nothing: the scan is not repeated and the stored
    coins are not rewritten. *)
Theorem restore_idempotent_after_success
    (dataKey : string) (io : PluginIo) (chain chain' : Chain) (z : ZcoinState) :
  (restore dataKey io chain z).1 = true ->
  restore dataKey io chain' (restore dataKey io chain z).2
  = (true, (restore dataKey io chain z).2).
Proof.
  intros Hok. rewrite restore_marker_result in Hok.
  unfold restore at 1. rewrite Hok. reflexivity.
Qed.

Lemma restore_idempotent_after_success_witness :
  (restore "k" fixtureIo chainOneCoin freshState).1 = true
  /\ restore "k" fixtureIo chainTwoCoins
       (restore "k" fixtureIo chainOneCoin freshState).2
     = (true, (restore "k" fixtureIo chainOneCoin freshState).2).
Proof.
  assert (Hok : (restore "k" fixtureIo chainOneCoin freshState).1 = true)
    by (vm_compute; reflexivity).
  split; [exact Hok|].
  exact (restore_idempotent_after_success "k" fixtureIo chainOneCoin chainTwoCoins
           freshState Hok).
Defined.

(** ** getMintMetadataLoop: which coins change, what is kept, what is stored *)

Lemma collectMints_lookup pos mintData rq m k :
  (collectMints pos mintData rq m).2 !! k
  = match lastPosition k mintData pos with
    | Some p => Some p
    | None => m !! k
    end.
Proof.
  revert pos rq m. induction mintData as [|c rest IH]; intros pos rq m; simpl.
  - reflexivity.
  - destruct (decide (commitment c = "")) as [Hempty|Hfull]; rewrite IH.
    + destruct (lastPosition k rest (S pos)); [reflexivity|].
      destruct (decide (commitment c = k /\ k <> "")) as [[Hk Hne]|_];
        [congruence|reflexivity].
    + destruct (lastPosition k rest (S pos)); [reflexivity|].
      destruct (decide (commitment c = k /\ k <> "")) as [[Hk Hne]|Hno].
      * rewrite Hk. apply lookup_insert_eq.
      * apply lookup_insert_ne. intros Hk. apply Hno. split; congruence.
Qed.

Lemma lastPosition_None k mintData pos :
  lastPosition k mintData pos = None -> k <> "" ->
  Forall (fun c => commitment c <> k) mintData.
Proof.
  revert pos. induction mintData as [|c rest IH]; intros pos Hnone Hk;
    [constructor|].
  simpl in Hnone. destruct (lastPosition k rest (S pos)) eqn:Hrest; [discriminate|].
  destruct (decide (commitment c = k /\ k <> "")) as [|Hno]; [discriminate|].
  constructor; [tauto|]. eapply IH; eassumption.
Qed.

Lemma lastPosition_Some k mintData pos p :
  lastPosition k mintData pos = Some p ->
  k <> "" /\ (pos <= p)%nat
  /\ (exists c, mintData !! (p - pos)%nat = Some c /\ commitment c = k)
  /\ forall j c, (p - pos < j)%nat -> mintData !! j = Some c -> commitment c <> k.
Proof.
  revert pos p. induction mintData as [|c rest IH]; intros pos p; simpl;
    [discriminate|].
  destruct (lastPosition k rest (S pos)) as [q|] eqn:Hq.
  - intros [= <-]. destruct (IH _ _ Hq) as (Hne & Hle & (c' & Hc' & Hcom) & Hlater).
    split; [exact Hne|]. split; [lia|]. split.
    + exists c'. split; [|exact Hcom].
      replace (q - pos)%nat with (S (q - S pos)) by lia. exact Hc'.
    + intros j d Hj Hd. destruct j as [|j]; [lia|]. simpl in Hd.
      apply (Hlater j d); [lia|exact Hd].
  - destruct (decide (commitment c = k /\ k <> "")) as [[Hk Hne]|_]; [|discriminate].
    intros [= <-]. split; [exact Hne|]. split; [lia|]. split.
    + exists c. rewrite Nat.sub_diag. split; [reflexivity|exact Hk].
    + intros j d Hj Hd. destruct j as [|j]; [lia|]. simpl in Hd.
      pose proof (lastPosition_None _ _ _ Hq Hne) as Hall.
      rewrite Forall_forall in Hall. apply Hall.
      eapply list_elem_of_lookup_2. exact Hd.
Qed.

Lemma applyMetadata_writes_at blockHeight m retrievedData mintData i c c' :
  mintData !! i = Some c ->
  (applyMetadata blockHeight m retrievedData mintData).1 !! i = Some c' ->
  c' = c
  \/ exists data, data ∈ retrievedData
       /\ m !! pubcoin data = Some i
       /\ c' = setGroupId (confirmedGroupId blockHeight data) c.
Proof.
  revert mintData c. induction retrievedData as [|data rest IH];
    intros mintData c Hc Hc'; simpl in Hc'.
  - left. congruence.
  - destruct (m !! pubcoin data) as [pos|] eqn:Hpos; simpl in Hc'; [|left; congruence].
    destruct (decide (pos = i)) as [->|Hne].
    + destruct (IH (alter (setGroupId (confirmedGroupId blockHeight data)) i mintData)
                  (setGroupId (confirmedGroupId blockHeight data) c))
        as [->|(data' & Hin & Hat & ->)].
      * rewrite list_lookup_alter_eq, Hc. reflexivity.
      * exact Hc'.
      * right. exists data. split; [left|]. split; [exact Hpos|reflexivity].
      * right. exists data'. split; [right; exact Hin|].
        split; [exact Hat|reflexivity].
    + destruct (IH (alter (setGroupId (confirmedGroupId blockHeight data)) pos mintData) c)
        as [->|(data' & Hin & Hat & ->)].
      * rewrite list_lookup_alter_ne by assumption. exact Hc.
      * exact Hc'.
      * left. reflexivity.
      * right. exists data'. split; [right; exact Hin|].
        split; [exact Hat|reflexivity].
Qed.

Lemma refresh_coins blockHeight chain z :
  mintedCoins (getMintMetadataLoop blockHeight chain z).2 = mintedCoins z
  \/ mintedCoins (getMintMetadataLoop blockHeight chain z).2
     = (applyMetadata blockHeight (collectMints 0 (mintedCoins z) [] ∅).2
          (retrieveMintMetadata chain (metadataRequests (mintedCoins z)))
          (mintedCoins z)).1.
Proof.
  unfold getMintMetadataLoop, metadataRequests.
  destruct (collectMints 0 (mintedCoins z) [] ∅) as [rq m]. cbn [fst snd].
  destruct (decide (0 < length rq)%nat); [|left; reflexivity]. right.
  destruct (applyMetadata _ _ _ _) as [mintData' [e|]]; cbn [fst snd mintedCoins];
    [reflexivity|].
  unfold writeMintedCoins. destruct (setText _ _ _); reflexivity.
Qed.

(** X12.  A refresh can change a stored coin only if the coin carries a non-empty
    commitment, is the last coin of the store with that commitment, and the
    server reported that commitment; the change is then the [groupId]
    computed from a reported entry.  Coins without commitment, earlier
    duplicates and coins the server is silent about stay as they are. *)
Theorem getMintMetadataLoop_touches_last_reported
    (blockHeight : Z) (chain : Chain) (z : ZcoinState) (i : nat)
    (c c' : PrivateCoin) :
  mintedCoins z !! i = Some c ->
  mintedCoins (getMintMetadataLoop blockHeight chain z).2 !! i = Some c' ->
  c' <> c ->
  commitment c <> ""
  /\ (forall j d, (i < j)%nat -> mintedCoins z !! j = Some d ->
                  commitment d <> commitment c)
  /\ exists data,
       data ∈ retrieveMintMetadata chain (metadataRequests (mintedCoins z))
       /\ pubcoin data = commitment c
       /\ c' = setGroupId (confirmedGroupId blockHeight data) c.
Proof.
  intros Hc Hc' Hchanged.
  destruct (refresh_coins blockHeight chain z) as [Hsame|Hnew];
    [rewrite Hsame in Hc'; congruence|].
  rewrite Hnew in Hc'.
  destruct (applyMetadata_writes_at _ _ _ _ _ _ _ Hc Hc')
    as [->|(data & Hin & Hat & ->)]; [contradiction|].
  rewrite collectMints_lookup in Hat. rewrite lookup_empty in Hat.
  destruct (lastPosition (pubcoin data) (mintedCoins z) 0) as [p|] eqn:Hlast;
    [|discriminate].
  injection Hat as ->.
  destruct (lastPosition_Some _ _ _ _ Hlast) as (Hne & _ & (c0 & Hc0 & Hcom) & Hlater).
  rewrite Nat.sub_0_r in Hc0, Hlater.
  assert (c0 = c) as -> by congruence.
  split; [congruence|]. split.
  - intros j d Hj Hd. rewrite Hcom. apply (Hlater j d Hj Hd).
  - exists data. split; [exact Hin|]. split; [congruence|reflexivity].
Qed.

Lemma getMintMetadataLoop_touches_last_reported_witness :
  mintedCoins duplicateState !! 1%nat = Some duplicateCoin
  /\ mintedCoins (getMintMetadataLoop 105 chainConfirming duplicateState).2
     = [pendingCoin; setGroupId 3 duplicateCoin]
  /\ commitment duplicateCoin <> "".
Proof.
  assert (Hbefore : mintedCoins duplicateState !! 1%nat = Some duplicateCoin)
    by reflexivity.
  assert (Hafter :
            mintedCoins (getMintMetadataLoop 105 chainConfirming duplicateState).2
            = [pendingCoin; setGroupId 3 duplicateCoin])
    by (vm_compute; reflexivity).
  split; [exact Hbefore|]. split; [exact Hafter|].
  refine (proj1 (getMintMetadataLoop_touches_last_reported 105 chainConfirming
                   duplicateState 1 duplicateCoin (setGroupId 3 duplicateCoin)
                   Hbefore _ _)).
  - rewrite Hafter. reflexivity.
  - discriminate.
Defined.

Lemma applyMetadata_same_but_groupId blockHeight m retrievedData mintData :
  setGroupId 0 <$> (applyMetadata blockHeight m retrievedData mintData).1
  = setGroupId 0 <$> mintData.
Proof.
  revert mintData. induction retrievedData as [|data rest IH]; intros mintData;
    simpl; [reflexivity|].
  destruct (m !! pubcoin data) as [pos|]; [|reflexivity].
  rewrite IH. apply list_eq. intros j. rewrite !list_lookup_fmap.
  destruct (decide (pos = j)) as [->|Hne].
  - rewrite list_lookup_alter_eq. destruct (mintData !! j); reflexivity.
  - rewrite list_lookup_alter_ne by assumption. reflexivity.
Qed.

(** X13.  A refresh neither adds nor removes nor reorders coins, and of a coin it
    changes nothing but the [groupId]: value, index, commitment, serial
    number, spent flag and spend transaction id all stay. *)
Theorem getMintMetadataLoop_keeps_all_but_groupId
    (blockHeight : Z) (chain : Chain) (z : ZcoinState) :
  setGroupId 0 <$> mintedCoins (getMintMetadataLoop blockHeight chain z).2
  = setGroupId 0 <$> mintedCoins z.
Proof.
  destruct (refresh_coins blockHeight chain z) as [->| ->]; [reflexivity|].
  apply applyMetadata_same_but_groupId.
Qed.



Lemma applyMetadata_known blockHeight m retrievedData mintData :
  Forall (fun data => is_Some (m !! pubcoin data)) retrievedData ->
  (applyMetadata blockHeight m retrievedData mintData).2 = None.
Proof.
  intros Hall. revert mintData. induction Hall as [|data rest [pos Hpos] _ IH];
    intros mintData; [reflexivity|].
  simpl. rewrite Hpos. apply IH.
Qed.

Lemma collectMints_requests pos mintData rq m :
  (collectMints pos mintData rq m).1
  = rq ++ ((fun c => {| rq_denom := value c; rq_pubcoin := commitment c |})
           <$> List.filter (fun c => negb (bool_decide (commitment c = ""))) mintData).
Proof.
  revert pos rq m. induction mintData as [|c rest IH]; intros pos rq m; simpl.
  - rewrite app_nil_r. reflexivity.
  - destruct (decide (commitment c = "")) as [Hempty|Hfull].
    + rewrite IH. rewrite bool_decide_eq_true_2 by exact Hempty. reflexivity.
    + rewrite IH. rewrite bool_decide_eq_false_2 by exact Hfull. simpl.
      rewrite <- app_assoc. reflexivity.
Qed.



Example refresh_partial_update_in_memory :
  mintedCoins (getMintMetadataLoop 105 chainUnknownCoin pendingState).2
  = [setGroupId 3 pendingCoin]
  /\ files (disklet (getMintMetadataLoop 105 chainUnknownCoin pendingState).2)
       !! SIGMA_ENCRYPTED_FILE = None.
Proof. vm_compute. split; reflexivity. Qed.

(** A refresh that returns normally has either found no coin with a
    commitment, and then has changed nothing at all, or has stored the coin
    array exactly as it is then held in memory.  This rests on
    [writeMintedCoins] as modelled above, whose body is not among the
    sources. *)
Theorem getMintMetadataLoop_persists_what_it_holds
    (blockHeight : Z) (chain : Chain) (z : ZcoinState) :
  (getMintMetadataLoop blockHeight chain z).1 = Ok tt ->
  (Forall (fun c => commitment c = "") (mintedCoins z)
   /\ (getMintMetadataLoop blockHeight chain z).2 = z)
  \/ files (disklet (getMintMetadataLoop blockHeight chain z).2)
       !! SIGMA_ENCRYPTED_FILE
     = Some (MintJson (mintedCoins (getMintMetadataLoop blockHeight chain z).2)).
Proof.
  unfold getMintMetadataLoop.
  pose proof (collectMints_requests 0 (mintedCoins z) [] ∅) as Hrq.
  destruct (collectMints 0 (mintedCoins z) [] ∅) as [rq m]. cbn [fst snd] in *.
  destruct (decide (0 < length rq)%nat) as [Hsome|Hnone].
  - destruct (applyMetadata _ _ _ _) as [mintData' [e|]]; cbn [fst snd];
      [discriminate|].
    unfold writeMintedCoins, setText. cbn [disklet].
    destruct (decide _); cbn [fst snd]; [discriminate|].
    intros _. right. cbn. apply lookup_insert_eq.
  - intros _. left. split; [|reflexivity].
    destruct rq; [|simpl in Hnone; lia]. simpl in Hrq.
    symmetry in Hrq. apply fmap_nil_inv in Hrq.
    apply Forall_forall. intros c Hc.
    destruct (decide (commitment c = "")) as [Hempty|Hfull]; [exact Hempty|].
    exfalso. assert (Hin : In c (List.filter
                                   (fun c => negb (bool_decide (commitment c = "")))
                                   (mintedCoins z))).
    { apply filter_In. split; [apply list_elem_of_In, Hc|].
      rewrite bool_decide_eq_false_2 by exact Hfull. reflexivity. }
    rewrite Hrq in Hin. destruct Hin.
Qed.

Lemma getMintMetadataLoop_persists_what_it_holds_witness :
  (getMintMetadataLoop 105 chainConfirming pendingState).1 = Ok tt
  /\ files (disklet (getMintMetadataLoop 105 chainConfirming pendingState).2)
       !! SIGMA_ENCRYPTED_FILE
     = Some (MintJson [setGroupId 3 pendingCoin]).
Proof.
  assert (Hok : (getMintMetadataLoop 105 chainConfirming pendingState).1 = Ok tt)
    by (vm_compute; reflexivity).
  split; [exact Hok|].
  destruct (getMintMetadataLoop_persists_what_it_holds 105 chainConfirming
              pendingState Hok) as [[Hempty _]|Hstored].
  - exfalso. apply Forall_inv in Hempty. discriminate.
  - rewrite Hstored. vm_compute. reflexivity.
Defined.

(** Neither the restore nor the refresh touches a file other than the coin
    file and (for the restore) the marker, and neither changes which files
    reject writes.  This too rests on [writeMintedCoins] as modelled
    above. *)
Theorem storage_frame
    (dataKey : string) (io : PluginIo) (blockHeight : Z) (chain : Chain)
    (z : ZcoinState) (name : string) :
  name <> SIGMA_ENCRYPTED_FILE ->
  (name <> RESTORE_FILE ->
   files (disklet (restore dataKey io chain z).2) !! name
   = files (disklet z) !! name)
  /\ files (disklet (getMintMetadataLoop blockHeight chain z).2) !! name
     = files (disklet z) !! name
  /\ unwritable (disklet (restore dataKey io chain z).2) = unwritable (disklet z)
  /\ unwritable (disklet (getMintMetadataLoop blockHeight chain z).2)
     = unwritable (disklet z).
Proof.
  intros Hcoins.
  assert (Hrestore :
            (name <> RESTORE_FILE ->
             files (disklet (restore dataKey io chain z).2) !! name
             = files (disklet z) !! name)
            /\ unwritable (disklet (restore dataKey io chain z).2)
               = unwritable (disklet z)).
  { unfold restore. destruct (markerRestored (disklet z)); [split; reflexivity|].
    unfold writeMintedCoins, setText.
    destruct (decide (SIGMA_ENCRYPTED_FILE ∈ unwritable (disklet z))); cbn;
      [split; reflexivity|].
    destruct (decide (RESTORE_FILE ∈ unwritable (disklet z))); cbn.
    - split; [|reflexivity]. intros _.
      apply lookup_insert_ne. congruence.
    - split; [|reflexivity]. intros Hmarker.
      rewrite lookup_insert_ne by congruence.
      apply lookup_insert_ne. congruence. }
  assert (Hrefresh :
            files (disklet (getMintMetadataLoop blockHeight chain z).2) !! name
            = files (disklet z) !! name
            /\ unwritable (disklet (getMintMetadataLoop blockHeight chain z).2)
               = unwritable (disklet z)).
  { unfold getMintMetadataLoop.
    destruct (collectMints 0 (mintedCoins z) [] ∅) as [rq m].
    destruct (decide (0 < length rq)%nat); [|split; reflexivity].
    destruct (applyMetadata _ _ _ _) as [mintData' [e|]]; cbn [fst snd];
      [split; reflexivity|].
    unfold writeMintedCoins, setText. cbn [disklet].
    destruct (decide _); cbn; [split; reflexivity|].
    split; [|reflexivity]. apply lookup_insert_ne. congruence. }
  tauto.
Qed.

Lemma storage_frame_witness :
  "other.json" <> SIGMA_ENCRYPTED_FILE
  /\ files (disklet (getMintMetadataLoop 105 chainConfirming pendingState).2)
       !! "other.json"
     = files (disklet pendingState) !! "other.json".
Proof.
  assert (Hname : "other.json" <> SIGMA_ENCRYPTED_FILE) by discriminate.
  split; [exact Hname|].
  exact (proj1 (proj2 (storage_frame "k" fixtureIo 105 chainConfirming pendingState
                         "other.json" Hname))).
Defined.

(** ** makeMint: outputs and coins, targets, error types *)








Example makeMint_two_funded_targets :
  makeMint fixtureEngine twoTargets noTxOptions = Throw typeError.
Proof. vm_compute. reflexivity. Qed.


(** X17.  A funding failure of the transaction builder never leaves [makeMint] as
    such: unless the engine's own insufficient-funds object is typed that
    way, no error thrown by [makeMint] has the type ['FundingError'],
    whatever the builder, the disk or the key derivation do. *)
Theorem makeMint_never_FundingError
    (eng : Engine) (edgeSpendInfo : EdgeSpendInfo) (txOptions : TxOptions)
    (e : JsError) :
  err_type (eng_newInsufficientFundsError eng) <> "FundingError" ->
  makeMint eng edgeSpendInfo txOptions = Throw e ->
  err_type e <> "FundingError".
Proof.
  intros Hown Hrun. unfold makeMint in Hrun.
  destruct (decide _); [injection Hrun as <-; discriminate|].
  destruct (sumUtxos_cases
              (default (eng_getUTXOs eng) (opt_utxos txOptions)))
    as [[_ Hsum]|[_ Hsum]]; rewrite Hsum in Hrun;
    [|injection Hrun as <-; discriminate].
  destruct (decide _); [injection Hrun as <-; exact Hown|].
  destruct (mintTargets _ _ _) as [outs mints].
  unfold rethrowFunding in Hrun.
  destruct (eng_createTX _ _ _ _) as [bcoinTx|e0].
  - destruct (patchOutputs _ _ _) as [patched|e1] eqn:Hpatch; [discriminate|].
    assert (e1 = typeError) as ->.
    { clear -Hpatch. revert Hpatch. generalize (btx_outputs bcoinTx).
      generalize (seq 0 (length outs)). intros positions.
      induction positions as [|p positions IH]; intros l; simpl; [discriminate|].
      unfold patchOutput. destruct (l !! p); [|intros [= <-]; reflexivity].
      destruct (mints !! p); [|intros [= <-]; reflexivity]. apply IH. }
    destruct (decide _) as [Hty|_]; [discriminate|].
    injection Hrun as <-. discriminate.
  - destruct (decide (err_type e0 = "FundingError")) as [_|Hother];
      injection Hrun as <-; [discriminate|exact Hother].
Qed.

Lemma makeMint_never_FundingError_witness :
  err_type (eng_newInsufficientFundsError starvedEngine) <> "FundingError"
  /\ makeMint starvedEngine (mintRequest 15000000) noTxOptions
     = Throw insufficientFunds
  /\ err_type insufficientFunds <> "FundingError".
Proof.
  assert (Hown : err_type (eng_newInsufficientFundsError starvedEngine)
                 <> "FundingError") by discriminate.
  split; [exact Hown|]. split; [exact starved_first_attempt|].
  exact (makeMint_never_FundingError starvedEngine (mintRequest 15000000)
           noTxOptions insufficientFunds Hown starved_first_attempt).
Defined.

(** ** mint: the amounts of the attempts *)

Lemma firstAmount_setFirstAmount a info :
  spendTargets info <> [] -> firstAmount (setFirstAmount a info) = a.
Proof.
  unfold firstAmount, setFirstAmount.
  destruct (spendTargets info) as [|t rest]; [congruence|reflexivity].
Qed.

Lemma attemptAmount_next amount n :
  attemptAmount amount <$> seq 0 (S n)
  = amount :: (attemptAmount (amount - denominations_0) <$> seq 0 n).
Proof.
  cbn [seq fmap list_fmap]. f_equal.
  - unfold attemptAmount. simpl. lia.
  - rewrite <- fmap_S_seq, <- list_fmap_compose. apply list_fmap_ext.
    intros _ k _. unfold attemptAmount, compose. lia.
Qed.

Lemma mintTry_amounts eng info log :
  forall r l, mintTry eng info log = Ok (r, l) ->
  exists n : nat,
    calledAmounts l
    = calledAmounts log ++ (attemptAmount (firstAmount info) <$> seq 0 (S n))
    /\ Z.of_nat n * denominations_0 < Z.max (firstAmount info) 1.
Proof.
  funelim (mintTry eng info log); intros r l Hrun;
    try (injection Hrun as <- <-; exists 0%nat; split;
         [unfold calledAmounts; rewrite omap_app; cbn; unfold attemptAmount;
          repeat f_equal; lia
         |lia]);
    try discriminate.
  match goal with IH : forall r l, _ -> _ |- _ =>
    destruct (IH r l Hrun) as (n' & Hcalls & Hbound)
  end.
  match goal with Hne : spendTargets _ <> [] |- _ =>
    rewrite (firstAmount_setFirstAmount _ _ Hne) in Hcalls, Hbound
  end.
  exists (S n'). split.
  - rewrite Hcalls, (attemptAmount_next (firstAmount info) (S n')).
    unfold calledAmounts. rewrite omap_app, <- app_assoc. reflexivity.
  - change denominations_0 with 5000000 in *. lia.
Qed.

(** X18.  The attempts of one [mint] run ask [makeMint] for the starting amount,
    then for [denominations[0]] less each time: attempt [k] asks for the
    starting amount minus [k] times 5000000.  There is at least one attempt,
    and the retries stop before the amount is used up, so a run makes no
    more than one attempt per started 5000000 of the amount. *)
Theorem mint_attempts_step_down
    (eng : Engine) (info : EdgeSpendInfo) (log : list MintEvent) :
  mint eng info = Ok log ->
  exists retries : nat,
    calledAmounts log = attemptAmount (firstAmount info) <$> seq 0 (S retries)
    /\ Z.of_nat retries * denominations_0 < Z.max (firstAmount info) 1.
Proof.
  unfold mint. intros Hrun.
  destruct (mintTry eng info []) as [[r l]|e] eqn:Htry; [|discriminate].
  destruct (mintTry_amounts _ _ _ _ _ Htry) as (n & Hcalls & Hbound).
  exists n. split; [|exact Hbound].
  assert (Hsame : calledAmounts log = calledAmounts l).
  { destruct r as [t|]; [|injection Hrun as <-; reflexivity].
    destruct (eng_signTx eng t) as [t1|e];
      [|injection Hrun as <-; unfold calledAmounts; rewrite omap_app;
        apply app_nil_r].
    destruct (eng_broadcastTx eng t1) as [t2|e];
      [|injection Hrun as <-; unfold calledAmounts; rewrite omap_app;
        apply app_nil_r].
    destruct (eng_saveTx eng t2) as [u|e];
      injection Hrun as <-; unfold calledAmounts; rewrite omap_app;
      apply app_nil_r. }
  rewrite Hsame, Hcalls. reflexivity.
Qed.

Lemma mint_attempts_step_down_witness :
  exists log,
    mint starvedEngine (mintRequest 15000000) = Ok log
    /\ exists retries : nat,
         calledAmounts log
         = attemptAmount (firstAmount (mintRequest 15000000)) <$> seq 0 (S retries)
         /\ Z.of_nat retries * denominations_0
            < Z.max (firstAmount (mintRequest 15000000)) 1.
Proof.
  eexists. split; [vm_compute; reflexivity|].
  apply (mint_attempts_step_down starvedEngine (mintRequest 15000000)).
  vm_compute. reflexivity.
Defined.

(** ** loop: the amount of the automatic mint *)

(** X19.  When [loop] starts a mint for an unminted balance, the amount it asks
    for is positive and within the balance, and the coins derived for it
    are worth at least one smallest denomination and strictly less than the
    balance: between one unit and 5000000 units stay unminted, also when
    the balance is a multiple of 5000000. *)
Theorem loop_mint_leaves_room_for_fee
    (needToMint amount : Z) (privateKey : string) (currentIndex : Z)
    (io : PluginIo) :
  autoMintAmount needToMint = Some amount ->
  let minted :=
    sumZ (coinValues (getMintCommitmentsForValue amount privateKey currentIndex io)) in
  amount = (if decide (needToMint mod denominations_0 = 0)
            then needToMint - denominations_0 else needToMint)
  /\ 0 < amount <= needToMint
  /\ denominations_0 <= minted < needToMint
  /\ needToMint - minted <= denominations_0.
Proof.
  intros Hamount. cbv zeta. set (minted := sumZ _).
  unfold autoMintAmount in Hamount. change denominations_0 with 5000000 in *.
  destruct (decide (needToMint > 5000000)) as [Hlarge|]; [|discriminate].
  assert (Hpos : 0 <= amount).
  { destruct (decide _); injection Hamount as <-; lia. }
  assert (Hminted : minted = amount - amount mod 5000000).
  { unfold minted. rewrite getMintCommitmentsForValue_values, greedyValues_sum.
    rewrite denominations_residue by exact Hpos. reflexivity. }
  rewrite Z.quot_div_nonneg in Hamount by lia.
  pose proof (Z.div_mod needToMint 5000000 ltac:(lia)) as Hdiv.
  pose proof (Z.mod_pos_bound needToMint 5000000 ltac:(lia)) as Hmod.
  destruct (decide (_ * _ = _)) as [Hmultiple|Hrest]; injection Hamount as <-.
  - assert (Hzero : needToMint mod 5000000 = 0) by lia.
    assert (Hzero' : (needToMint - 5000000) mod 5000000 = 0).
    { replace (needToMint - 5000000) with (needToMint + (-1) * 5000000) by lia.
      rewrite Z.mod_add by lia. exact Hzero. }
    destruct (decide (needToMint mod 5000000 = 0)); [|contradiction].
    split; [reflexivity|]. lia.
  - assert (needToMint mod 5000000 <> 0) by lia.
    assert (5000000 <= needToMint - needToMint mod 5000000).
    { assert (1 <= needToMint / 5000000) by (apply Z.div_le_lower_bound; lia).
      lia. }
    destruct (decide (needToMint mod 5000000 = 0)); [contradiction|].
    split; [reflexivity|]. lia.
Qed.

Lemma loop_mint_leaves_room_for_fee_witness :
  autoMintAmount 20000000 = Some 15000000
  /\ 0 < 15000000 <= 20000000
  /\ denominations_0
     <= sumZ (coinValues (getMintCommitmentsForValue 15000000 "k" 7 fixtureIo))
     < 20000000.
Proof.
  assert (Hamount : autoMintAmount 20000000 = Some 15000000)
    by (vm_compute; reflexivity).
  split; [exact Hamount|].
  destruct (loop_mint_leaves_room_for_fee 20000000 15000000 "k" 7 fixtureIo Hamount)
    as (_ & Hrange & Hminted & _).
  split; [exact Hrange|exact Hminted].
Defined.

(** ** getSpendTransactionValues *)

Lemma addSpendValue_lookup values item txid :
  addSpendValue values item !! txid
  = if decide (spendTxId item = txid /\ txid <> "")
    then Some (default 0 (values !! txid) + value item)
    else values !! txid.
Proof.
  unfold addSpendValue.
  destruct (decide (spendTxId item = "")) as [Hnone|Hsome].
  - destruct (decide _) as [[Heq Hne]|_]; [congruence|reflexivity].
  - destruct (decide (spendTxId item = txid /\ txid <> "")) as [[<- _]|Hother].
    + rewrite lookup_insert_eq. f_equal. f_equal.
      destruct (decide (is_Some _)) as [_|Hfresh]; [reflexivity|].
      rewrite lookup_insert_eq.
      destruct (values !! spendTxId item) eqn:Hv; [|reflexivity].
      exfalso. apply Hfresh. eexists; reflexivity.
    + assert (spendTxId item <> txid) by (intros <-; apply Hother; split; auto).
      rewrite lookup_insert_ne by assumption.
      destruct (decide (is_Some _)); [reflexivity|].
      apply lookup_insert_ne. assumption.
Qed.

(** X20.  The value recorded for a transaction id is the total of the coins whose
    [spendTxId] is that id; an id no coin carries has no entry, and neither
    has the empty id of the unspent coins. *)
Theorem getSpendTransactionValues_totals
    (mintData : list PrivateCoin) (txid : string) :
  getSpendTransactionValues mintData !! txid
  = if decide (txid = "") then None
    else match spentBy txid mintData with
         | [] => None
         | spent => Some (sumZ (coinValues spent))
         end.
Proof.
  unfold getSpendTransactionValues, spentBy.
  induction mintData as [|item mintData IH] using rev_ind.
  - simpl. rewrite lookup_empty. destruct (decide _); reflexivity.
  - rewrite foldl_snoc, addSpendValue_lookup, IH, filter_app. clear IH.
    rewrite filter_cons, filter_nil.
    destruct (decide (txid = "")) as [->|Hne].
    + destruct (decide _) as [[_ Hbad]|_]; [congruence|reflexivity].
    + destruct (decide (spendTxId item = txid)) as [Heq|Hother].
      * destruct (decide _) as [_|Hbad]; [|exfalso; apply Hbad; split; auto].
        destruct (filter _ mintData) as [|c spent]; cbn [app].
        -- simpl. f_equal. lia.
        -- cbn [default]. f_equal. unfold coinValues.
           rewrite !fmap_cons, fmap_app, !fmap_cons.
           change (sumZ (value c :: ?l)) with (value c + sumZ l).
           rewrite sumZ_app. simpl. lia.
      * destruct (decide _) as [[Hbad _]|_]; [contradiction|].
        rewrite app_nil_r. reflexivity.
Qed.

(** ** sumTransaction *)

Lemma outputStep_foldl formatAddress engineState outs :
  forall total native ours,
  exists counted received addresses,
    foldl (outputStep formatAddress engineState) (total, native, ours) outs
    = (total + counted, native + received, ours ++ addresses)
    /\ Forall (fun a => isOurs engineState a = true) addresses
    /\ (Forall (fun o => 0 <= oj_value o) outs -> 0 <= received <= counted)
    /\ (Forall (paysUs formatAddress engineState) outs -> received = counted).
Proof.
  induction outs as [|o outs IH]; intros total native ours.
  - exists 0, 0, []. cbn [foldl]. rewrite !Z.add_0_r, app_nil_r.
    split; [reflexivity|]. split; [constructor|]. split; intros _; lia.
  - cbn [foldl].
    assert (Hstep :
      exists v w addr,
        outputStep formatAddress engineState (total, native, ours) o
        = (total + v, native + w, ours ++ addr)
        /\ Forall (fun a => isOurs engineState a = true) addr
        /\ (0 <= oj_value o -> 0 <= w <= v)
        /\ (paysUs formatAddress engineState o -> w = v)).
    { unfold outputStep, paysUs.
      destruct (isStandard o) eqn:Hstd.
      - destruct (formatAddress (oj_address o)) as [a|e] eqn:Hfmt.
        + destruct (isOurs engineState a) eqn:Hours.
          * exists (oj_value o), (oj_value o), [a]. split; [reflexivity|].
            split; [repeat constructor; exact Hours|]. split; intros; lia.
          * exists (oj_value o), 0, []. rewrite Z.add_0_r, app_nil_r.
            split; [reflexivity|]. split; [constructor|].
            split; [intros; lia|].
            intros Hpays. destruct (Hpays eq_refl) as (a' & [= <-] & Hyes).
            congruence.
        + destruct (decide (oj_value o <= 0)).
          * exists 0, 0, []. rewrite !Z.add_0_r, app_nil_r.
            split; [reflexivity|]. split; [constructor|].
            split; [intros; lia|].
            intros Hpays. destruct (Hpays eq_refl) as (a' & [=] & _).
          * destruct (isOurs engineState "") eqn:Hours.
            -- exists (oj_value o), (oj_value o), [""]. split; [reflexivity|].
               split; [repeat constructor; exact Hours|]. split; intros; lia.
            -- exists (oj_value o), 0, []. rewrite Z.add_0_r, app_nil_r.
               split; [reflexivity|]. split; [constructor|].
               split; [intros; lia|].
               intros Hpays. destruct (Hpays eq_refl) as (a' & [=] & _).
      - exists 0, 0, []. rewrite !Z.add_0_r, app_nil_r.
        split; [reflexivity|]. split; [constructor|]. split; intros; lia. }
    destruct Hstep as (v & w & addr & -> & Haddr & Hpos & Hpays).
    destruct (IH (total + v) (native + w) (ours ++ addr))
      as (counted & received & addresses & -> & Hall & Hpos' & Hpays').
    exists (v + counted), (w + received), (addr ++ addresses).
    split; [rewrite !Z.add_assoc, app_assoc; reflexivity|].
    split; [apply Forall_app; split; assumption|].
    split.
    + intros Hvals. apply Forall_cons in Hvals. destruct Hvals as [Ho Hrest].
      specialize (Hpos Ho). specialize (Hpos' Hrest). lia.
    + intros Hvals. apply Forall_cons in Hvals. destruct Hvals as [Ho Hrest].
      rewrite (Hpays Ho), (Hpays' Hrest). reflexivity.
Qed.

Lemma inputStep_Throw formatAddress engineState e ins :
  foldl (inputStep formatAddress engineState) (Throw e) ins = Throw e.
Proof. induction ins as [|i ins IH]; [reflexivity|exact IH]. Qed.

Lemma inputStep_unknown formatAddress engineState ins :
  Forall (fun i => spentOutput engineState i = None
                   /\ forall p prev, i = Some p ->
                        parsedTxs engineState !! rhash p = Some prev -> False) ins ->
  forall acc,
    foldl (inputStep formatAddress engineState) (Ok acc) ins = Ok acc.
Proof.
  induction 1 as [|i ins [_ Hi] _ IH]; intros [totalIn native]; [reflexivity|].
  cbn [foldl].
  assert (inputStep formatAddress engineState (Ok (totalIn, native)) i
          = Ok (totalIn, native)) as ->; [|apply IH].
  unfold inputStep. destruct i as [p|]; [|reflexivity].
  destruct (parsedTxs engineState !! rhash p) as [prev|] eqn:Hprev; [|reflexivity].
  exfalso. exact (Hi p prev eq_refl Hprev).
Qed.

Lemma inputStep_own formatAddress engineState ins :
  Forall (fun i => forall o a,
            spentOutput engineState i = Some o ->
            formatAddress (oj_address o) = Ok a ->
            isOurs engineState a = true) ins ->
  forall totalIn native totalIn' native',
    foldl (inputStep formatAddress engineState) (Ok (totalIn, native)) ins
    = Ok (totalIn', native') ->
    native' + totalIn' = native + totalIn.
Proof.
  induction 1 as [|i ins Hi _ IH]; intros totalIn native totalIn' native';
    cbn [foldl].
  - intros [= <- <-]. reflexivity.
  - unfold inputStep at 2. unfold spentOutput in Hi.
    destruct i as [p|]; [|apply IH].
    cbn [mbind option_bind] in Hi.
    destruct (parsedTxs engineState !! rhash p) as [prev|]; [|apply IH].
    cbn [mbind option_bind] in Hi.
    destruct (ptx_outputs prev !! prevout_index p) as [o|];
      [|rewrite inputStep_Throw; discriminate].
    destruct (formatAddress (oj_address o)) as [a|e] eqn:Hfmt;
      [|rewrite inputStep_Throw; discriminate].
    rewrite (Hi o a eq_refl Hfmt). intros Hrest.
    apply IH in Hrest. lia.
Qed.

(** X21.  A transaction none of whose inputs spends a transaction known to the
    engine is always summed without an error, with a fee of 0: the amount
    reported is what its counted outputs pay to addresses of the wallet,
    never negative when no output value is, and every address listed as
    receiving belongs to the wallet. *)
Theorem sumTransaction_unknown_inputs
    (formatAddress : string -> Result string) (bcoinTransaction : ParsedTx)
    (engineState : EngineStateView) :
  Forall (fun i => forall p, i = Some p ->
                     parsedTxs engineState !! rhash p = None)
    (ptx_inputs bcoinTransaction) ->
  exists r,
    sumTransaction formatAddress bcoinTransaction engineState = Ok r
    /\ sum_fee r = 0
    /\ Forall (fun a => isOurs engineState a = true) (sum_ourReceiveAddresses r)
    /\ (Forall (fun o => 0 <= oj_value o) (ptx_outputs bcoinTransaction) ->
        0 <= sum_nativeAmount r).
Proof.
  intros Hunknown. unfold sumTransaction.
  destruct (outputStep_foldl formatAddress engineState
              (ptx_outputs bcoinTransaction) 0 0 [])
    as (counted & received & addresses & -> & Hours & Hpos & _).
  rewrite inputStep_unknown.
  - eexists. split; [reflexivity|]. cbn.
    split; [reflexivity|]. split; [exact Hours|].
    intros Hvals. specialize (Hpos Hvals). lia.
  - eapply Forall_impl; [exact Hunknown|]. intros i Hi. split.
    + unfold spentOutput. destruct i as [p|]; [|reflexivity].
      cbn [mbind option_bind]. rewrite (Hi p eq_refl). reflexivity.
    + intros p prev Hp Hprev. rewrite (Hi p Hp) in Hprev. discriminate.
Qed.

Lemma sumTransaction_unknown_inputs_witness :
  Forall (fun i => forall p, i = Some p ->
                     parsedTxs walletView !! rhash p = None)
    (ptx_inputs incoming)
  /\ sumTransaction plainFormat incoming walletView
     = Ok {| sum_nativeAmount := 700; sum_fee := 0;
             sum_ourReceiveAddresses := ["mine"] |}.
Proof.
  assert (Hunknown : Forall (fun i => forall p, i = Some p ->
                               parsedTxs walletView !! rhash p = None)
                       (ptx_inputs incoming)).
  { repeat constructor. intros p [= <-]. vm_compute. reflexivity. }
  split; [exact Hunknown|].
  destruct (sumTransaction_unknown_inputs plainFormat incoming walletView Hunknown)
    as (r & Hrun & _).
  rewrite Hrun. f_equal.
  assert (Hvalue : sumTransaction plainFormat incoming walletView
                   = Ok {| sum_nativeAmount := 700; sum_fee := 0;
                           sum_ourReceiveAddresses := ["mine"] |})
    by (vm_compute; reflexivity).
  congruence.
Defined.

(** X22.  A transaction that stays inside the wallet (every counted output pays a
    wallet address and every known input spends from one) is reported with
    the fee as its only cost: when a fee is computed at all, the amount is
    minus the fee. *)
Theorem sumTransaction_internal_costs_the_fee
    (formatAddress : string -> Result string) (bcoinTransaction : ParsedTx)
    (engineState : EngineStateView) (r : TxSummary) :
  sumTransaction formatAddress bcoinTransaction engineState = Ok r ->
  Forall (paysUs formatAddress engineState) (ptx_outputs bcoinTransaction) ->
  Forall (fun i => forall o a,
            spentOutput engineState i = Some o ->
            formatAddress (oj_address o) = Ok a ->
            isOurs engineState a = true) (ptx_inputs bcoinTransaction) ->
  sum_fee r <> 0 ->
  sum_nativeAmount r = - sum_fee r.
Proof.
  unfold sumTransaction. intros Hrun Houts Hins Hfee.
  destruct (outputStep_foldl formatAddress engineState
              (ptx_outputs bcoinTransaction) 0 0 [])
    as (counted & received & addresses & Hfold & _ & _ & Hall).
  rewrite Hfold in Hrun. rewrite (Hall Houts) in Hrun.
  destruct (foldl (inputStep _ _) _ _) as [[totalIn native]|e] eqn:Hinputs;
    [|discriminate].
  apply (inputStep_own _ _ _ Hins) in Hinputs.
  injection Hrun as <-. cbn in Hfee |- *.
  destruct (decide (totalIn = 0)); [congruence|]. lia.
Qed.

Lemma sumTransaction_internal_costs_the_fee_witness :
  sumTransaction plainFormat selfTransfer walletView
  = Ok {| sum_nativeAmount := -1000; sum_fee := 1000;
          sum_ourReceiveAddresses := ["change"] |}
  /\ sum_nativeAmount {| sum_nativeAmount := -1000; sum_fee := 1000;
                         sum_ourReceiveAddresses := ["change"] |}
     = - sum_fee {| sum_nativeAmount := -1000; sum_fee := 1000;
                    sum_ourReceiveAddresses := ["change"] |}.
Proof.
  assert (Hrun : sumTransaction plainFormat selfTransfer walletView
                 = Ok {| sum_nativeAmount := -1000; sum_fee := 1000;
                         sum_ourReceiveAddresses := ["change"] |})
    by (vm_compute; reflexivity).
  split; [exact Hrun|].
  apply (sumTransaction_internal_costs_the_fee plainFormat selfTransfer walletView
           _ Hrun).
  - repeat constructor.
    + intros _. exists "change". split; vm_compute; reflexivity.
    + intros Hstd. vm_compute in Hstd. discriminate.
  - repeat constructor. intros o a Hspent Hfmt.
    vm_compute in Hspent. injection Hspent as <-.
    vm_compute in Hfmt. injection Hfmt as <-. vm_compute. reflexivity.
  - simpl. lia.
Defined.

(** ** createBitcoinMessageSigHash: the length prefix *)

Lemma land_255 x : Z.land x 255 = x mod 256.
Proof. change 255 with (Z.ones 8). rewrite Z.land_ones by lia. reflexivity. Qed.

Lemma signedShiftRight_byte l k :
  0 <= l < 2 ^ 32 -> 0 <= k <= 24 ->
  Z.land (signedShiftRight l k) 255 = (l / 2 ^ k) mod 256.
Proof.
  intros Hl Hk. rewrite land_255. unfold signedShiftRight, toInt32.
  rewrite Z.shiftr_div_pow2 by lia.
  destruct (decide (l < 2 ^ 31)) as [Hsmall|Hbig].
  - rewrite (Z.mod_small (l + 2 ^ 31)) by lia.
    replace (l + 2 ^ 31 - 2 ^ 31) with l by lia. reflexivity.
  - replace (l + 2 ^ 31) with (l - 2 ^ 31 + 1 * 2 ^ 32) by lia.
    rewrite (Z.mod_add (l - 2 ^ 31)) by lia.
    rewrite (Z.mod_small (l - 2 ^ 31)) by lia.
    replace (l - 2 ^ 31 - 2 ^ 31) with (l + (- 2 ^ (32 - k)) * 2 ^ k).
    + rewrite (Z.div_add l) by (apply Z.pow_nonzero; lia).
      replace (- 2 ^ (32 - k)) with ((- 2 ^ (24 - k)) * 256).
      * apply Z.mod_add. lia.
      * replace (32 - k) with (24 - k + 8) by lia.
        rewrite Z.pow_add_r by lia. change (2 ^ 8) with 256. lia.
    + rewrite Z.mul_opp_l, <- Z.pow_add_r by lia.
      replace (32 - k + k) with 32 by lia. lia.
Qed.

(** X23.  The length prefix is Bitcoin's variable-length integer: a length below
    253 is its own single byte; otherwise the marker 253 is followed by two
    bytes, or the marker 254 by four, which hold the length with the least
    significant byte first.  This is so for every length below [2^32],
    also where [>>] sees a negative 32-bit value. *)
Theorem msgBufLength_holds_the_length (l : Z) :
  0 <= l < 2 ^ 32 ->
  Forall (fun b => 0 <= b < 256) (msgBufLength l)
  /\ exists marker bytes,
       msgBufLength l = marker ++ bytes
       /\ littleEndian bytes = l
       /\ (if decide (l < 253) then marker = [] /\ length bytes = 1%nat
           else if decide (l <= 65535) then marker = [253] /\ length bytes = 2%nat
           else marker = [254] /\ length bytes = 4%nat).
Proof.
  intros Hl. split.
  - unfold msgBufLength, bufferFromArray.
    repeat destruct (decide _); apply Forall_fmap, Forall_forall; intros x _;
      cbn; rewrite land_255; apply Z.mod_pos_bound; lia.
  - unfold msgBufLength.
    destruct (decide (l < 253)) as [H1|H1];
      [|destruct (decide (l <= 65535)) as [H2|H2]].
    + exists [], [l]. unfold bufferFromArray. cbn [fmap list_fmap app].
      rewrite land_255, Z.mod_small by lia.
      split; [reflexivity|]. split; [simpl; lia|]. split; reflexivity.
    + exists [253], [l mod 256; (l / 2 ^ 8) mod 256].
      unfold bufferFromArray. cbn [fmap list_fmap app].
      rewrite signedShiftRight_byte by lia. rewrite !land_255.
      split; [reflexivity|]. split; [|split; reflexivity].
      cbn [littleEndian]. change (2 ^ 8) with 256.
      assert ((l / 256) mod 256 = l / 256)
        by (apply Z.mod_small; split;
            [apply Z.div_pos; lia|apply Z.div_lt_upper_bound; lia]).
      pose proof (Z.div_mod l 256 ltac:(lia)). lia.
    + exists [254], [l mod 256; (l / 2 ^ 8) mod 256; (l / 2 ^ 16) mod 256;
                      (l / 2 ^ 24) mod 256].
      unfold bufferFromArray. cbn [fmap list_fmap app].
      rewrite !signedShiftRight_byte by lia. rewrite !land_255.
      split; [reflexivity|]. split; [|split; reflexivity].
      cbn [littleEndian].
      change (2 ^ 8) with 256. change (2 ^ 16) with (256 * 256).
      change (2 ^ 24) with (256 * 256 * 256).
      rewrite <- !Z.div_div by lia.
      set (q1 := l / 256). set (q2 := q1 / 256). set (q3 := q2 / 256).
      pose proof (Z.div_mod l 256 ltac:(lia)) as E0.
      pose proof (Z.div_mod q1 256 ltac:(lia)) as E1.
      pose proof (Z.div_mod q2 256 ltac:(lia)) as E2.
      fold q1 in E0. fold q2 in E1. fold q3 in E2.
      assert (Hq3 : q3 mod 256 = q3).
      { apply Z.mod_small. unfold q3, q2, q1. rewrite !Z.div_div by lia.
        split; [apply Z.div_pos; lia|apply Z.div_lt_upper_bound; lia]. }
      lia.
Qed.

Lemma msgBufLength_holds_the_length_witness :
  0 <= 70000 < 2 ^ 32
  /\ msgBufLength 70000 = [254; 112; 17; 1; 0]
  /\ littleEndian [112; 17; 1; 0] = 70000
  /\ Forall (fun b => 0 <= b < 256) (msgBufLength 70000).
Proof.
  assert (Hl : 0 <= 70000 < 2 ^ 32) by lia.
  split; [exact Hl|]. split; [vm_compute; reflexivity|].
  split; [vm_compute; reflexivity|].
  exact (proj1 (msgBufLength_holds_the_length 70000 Hl)).
Defined.

Lemma msgBufLength_shape (n : nat) :
  let l := Z.of_nat n in
  (l < 253 /\ msgBufLength l = [l])
  \/ (exists b0 b1, msgBufLength l = [253; b0; b1])
  \/ (exists b0 b1 b2 b3, msgBufLength l = [254; b0; b1; b2; b3]).
Proof.
  cbv zeta. unfold msgBufLength, bufferFromArray.
  destruct (decide (Z.of_nat n < 253)) as [H1|H1];
    [|destruct (decide (Z.of_nat n <= 65535))].
  - left. split; [exact H1|]. cbn [fmap list_fmap].
    rewrite land_255, Z.mod_small by lia. reflexivity.
  - right. left. eexists _, _. reflexivity.
  - right. right. eexists _, _, _, _. reflexivity.
Qed.

(** X24.  The hashed buffer determines the message: two different messages never
    have the same payload, whatever their lengths, so the hash is never
    taken of an ambiguous input. *)
Theorem sigHashPayload_determines_message (m1 m2 : list Z) :
  m1 <> m2 -> sigHashPayload m1 <> sigHashPayload m2.
Proof.
  unfold sigHashPayload. intros Hne Heq. apply Hne. apply app_inv_head in Heq.
  destruct (msgBufLength_shape (length m1))
    as [[Hs1 E1]|[(a0 & a1 & E1)|(a0 & a1 & a2 & a3 & E1)]];
  destruct (msgBufLength_shape (length m2))
    as [[Hs2 E2]|[(b0 & b1 & E2)|(b0 & b1 & b2 & b3 & E2)]];
  cbv zeta in E1, E2; rewrite E1, E2 in Heq; cbn [app] in Heq;
  injection Heq; intros; subst; try reflexivity; try lia.
Qed.

Lemma sigHashPayload_determines_message_witness :
  [104; 105] <> [104; 105; 33]
  /\ sigHashPayload [104; 105] <> sigHashPayload [104; 105; 33].
Proof.
  assert (Hne : [104; 105] <> [104; 105; 33] :> list Z) by discriminate.
  split; [exact Hne|].
  exact (sigHashPayload_determines_message [104; 105] [104; 105; 33] Hne).
Defined.
